(** * Offline-first expense synchronisation: local store, sync queue, sync cycle

    A shallow embedding of [lib/expenses-sqlite.ts] (the SQLite-backed local
    store and its sync queue) and of [lib/sync-service.ts] (push, pull and the
    full sync cycle), together with the properties of the synchronisation
    engine that are stated about them.

    The two SQLite tables of [lib/db.ts] are modelled as follows.
    - [expenses] has [id TEXT PRIMARY KEY]: a finite map from the id column
      to the row (the row repeats the id, as [SELECT *] returns it).
    - [sync_queue] has [id INTEGER PRIMARY KEY AUTOINCREMENT]: the list of
      its rows in rowid order, with the [sqlite_sequence] counter next to it.

    Every [new Date().toISOString()] is a reading of the platform clock, a
    non-empty string; the store counts the readings made so far, so each
    function reads the clock exactly where the source does.

    A SQLite statement succeeds unless it violates a constraint of the
    schema: the INSERT of [addExpense] and the UPDATE of [updateExpense]
    fail on [amount REAL NOT NULL] when the amount is NaN (which SQLite
    stores as NULL), and the INSERT fails on a repeated primary key. Disk
    and driver failures are outside the model. The [Date] of a form is a
    valid date, as the date picker gives it. A Supabase request answers
    with its [{ data, error }] object, as supabase-js does, rather than by
    throwing; the adapter in front of it throws when it is handed an
    Invalid Date. *)

From Stdlib Require Import ZArith Lia Ascii.
From stdpp Require Import base strings pretty list gmap sorting.

(** ** Platform *)

(** The error object of a Supabase response ([code], [message]), and whether
    it is an [instanceof Error]. *)
Record RemoteError := {
  e_instanceof_Error : bool;
  e_code : option string;
  e_message : option string;
}.


(** The constraints of the [expenses] table ([lib/db.ts]) that a statement
    of the local store can violate: [amount REAL NOT NULL] and
    [id TEXT PRIMARY KEY]. *)
Inductive Constraint := NotNull_amount | PrimaryKey_id.

(** What the JavaScript runtime and the SQLite driver provide.
    - The [number] type with [parseFloat], [Number.prototype.toString] and
      the test for NaN.
    - The wall clock: its n-th reading, already rendered by [toISOString].
    - [Date_toISOString text] is [new Date(text).toISOString()]: the stamp
      rendered again, or [None] when the text does not parse, in which case
      [toISOString] throws a [RangeError] whose message is
      [RangeError_message].
    - [sqlite_message c] is the message of the error the driver throws when
      a statement violates [c], or [None] when what it throws is not an
      [Error].
    - [JSON.stringify] on a thrown error object. *)
Class Platform := {
  number : Type;
  parseFloat : string → number;
  number_toString : number → string;
  isNaN : number → bool;
  clock : nat → string;
  Date_toISOString : string → option string;
  RangeError_message : string;
  sqlite_message : Constraint → option string;
  JSON_stringify : RemoteError → string;
}.

(** ** Data model ([types/expense.ts], [lib/db.ts]) *)

Inductive Operation := Create | Update | Delete.

Global Instance Operation_eq_dec : EqDecision Operation.
Proof. solve_decision. Defined.

Definition operation_name (op : Operation) : string :=
  match op with
  | Create => "create"
  | Update => "update"
  | Delete => "delete"
  end.

(** [ExpenseFormData]; its [Date] is a valid date, represented by its
    [toISOString()]. *)
Record ExpenseFormData := {
  f_amount : string;
  f_category : string;
  f_date : string;
  f_notes : string;
  f_receipt_url : option string;
}.

(** [Partial<ExpenseFormData>]: [None] is [undefined]. *)
Record PartialFormData := {
  u_amount : option string;
  u_category : option string;
  u_date : option string;
  u_notes : option string;
  u_receipt_url : option string;
}.

(** The [{ data, error }] objects the local store returns; [error] holds the
    message. *)
Record Result (A : Type) := {
  data : option A;
  error : option string;
}.
Arguments data {A} _.
Arguments error {A} _.

(** [SyncResult] of [lib/sync-service.ts]. *)
Record SyncResult := {
  success : bool;
  pushed : nat;
  pulled : nat;
  errors : list string;
}.

Inductive SyncStatus := Idle | Syncing | StatusSuccess | StatusError.

(** The state NetInfo reports; [None] is [null]. *)
Record NetInfoState := {
  isConnected : option bool;
  isInternetReachable : option bool;
}.

(** A call made to the remote store through [lib/expenses-supabase.ts]. *)
Inductive RemoteCall :=
  | CallAddExpense (expense : ExpenseFormData) (userId : string) (id : option string)
  | CallUpdateExpense (id : string) (updates : ExpenseFormData)
  | CallDeleteExpense (id : string)
  | CallGetExpenses (userId : string).

Section Model.
Context `{Platform}.

(** [Expense]: a record as the remote store holds it. *)
Record Expense := {
  r_id : string;
  r_user_id : string;
  r_amount : number;
  r_category : string;
  r_date : string;
  r_notes : option string;
  r_receipt_url : option string;
  r_created_at : string;
  r_updated_at : string;
}.

(** [LocalExpense]: a row of the [expenses] table. *)
Record LocalExpense := {
  id : string;
  user_id : string;
  amount : number;
  category : string;
  date : string;
  notes : option string;
  receipt_url : option string;
  created_at : string;
  updated_at : string;
  synced : Z;
  sync_error : option string;
  last_sync_at : option string;
}.

(** The value serialised into the [data] column of a queue row. *)
Inductive Payload :=
  | PayloadExpense (e : LocalExpense)
  | PayloadUpdates (u : PartialFormData).

(** A row of the [sync_queue] table. *)
Record QueueItem := {
  q_id : Z;
  q_expense_id : string;
  q_operation : Operation;
  q_data : option Payload;
  q_created_at : string;
  q_retry_count : Z;
}.

(** The database file, and the number of clock readings made so far. *)
Record Store := {
  expenses : gmap string LocalExpense;
  sync_queue : list QueueItem;
  sync_queue_seq : Z;
  ticks : nat;
}.

Definition empty_store : Store :=
  {| expenses := ∅; sync_queue := []; sync_queue_seq := 0; ticks := 0 |}.

Definition with_expenses (m : gmap string LocalExpense) (st : Store) : Store :=
  {| expenses := m; sync_queue := sync_queue st;
     sync_queue_seq := sync_queue_seq st; ticks := ticks st |}.

Definition with_sync_queue (q : list QueueItem) (st : Store) : Store :=
  {| expenses := expenses st; sync_queue := q;
     sync_queue_seq := sync_queue_seq st; ticks := ticks st |}.

(** [new Date().toISOString()] *)
Definition now (st : Store) : string := clock (ticks st).

Definition tick (st : Store) : Store :=
  {| expenses := expenses st; sync_queue := sync_queue st;
     sync_queue_seq := sync_queue_seq st; ticks := S (ticks st) |}.

(** ** JavaScript helpers *)

(** [s || null] and [s || undefined] on a string: the empty string is falsy. *)
Definition string_or_null (s : string) : option string :=
  match s with
  | EmptyString => None
  | _ => Some s
  end.

(** [o || null] on a string that may be missing. *)
Definition option_or_null (o : option string) : option string :=
  match o with
  | Some s => string_or_null s
  | None => None
  end.

(** [s.includes(sub)] *)
Fixpoint includes (s sub : string) : bool :=
  if String.prefix sub s then true
  else match s with
       | EmptyString => false
       | String _ s' => includes s' sub
       end.

(** ** Sync queue operations ([lib/expenses-sqlite.ts]) *)

Definition same_target (expenseId : string) (operation : Operation)
    (q : QueueItem) : bool :=
  bool_decide (q_expense_id q = expenseId ∧ q_operation q = operation).

(** The rowid AUTOINCREMENT gives to the next row: one more than the largest
    rowid the table ever held. *)
Definition next_rowid (st : Store) : Z :=
  (1 + foldr Z.max (sync_queue_seq st) (q_id <$> sync_queue st))%Z.

Definition addToSyncQueue (expenseId : string) (operation : Operation)
    (data : option Payload) (st : Store) : Store :=
  match find (same_target expenseId operation) (sync_queue st) with
  | Some _ => st
  | None =>
      let rowid := next_rowid st in
      {| expenses := expenses st;
         sync_queue := sync_queue st ++
           [ {| q_id := rowid; q_expense_id := expenseId;
                q_operation := operation; q_data := data;
                q_created_at := now st; q_retry_count := 0 |} ];
         sync_queue_seq := rowid;
         ticks := S (ticks st) |}
  end.

Definition created_at_le (a b : QueueItem) : Prop :=
  String.le (q_created_at a) (q_created_at b).

Global Instance created_at_le_dec : RelDecision created_at_le.
Proof. intros a b. unfold created_at_le. apply _. Defined.

(** One step of the sort: the row goes before the first row whose stamp is
    not earlier than its own. *)
Fixpoint insert_by_created_at (x : QueueItem) (l : list QueueItem)
    : list QueueItem :=
  match l with
  | [] => [x]
  | y :: l' =>
      if decide (created_at_le x y) then x :: l
      else y :: insert_by_created_at x l'
  end.

(** [SELECT * FROM sync_queue ORDER BY created_at ASC]: the rows, sorted by
    the text of [created_at]. SQL leaves the order of rows with equal stamps
    open; SQLite returns them in the order of the table scan, that is by
    rowid, and so does this sort. The [data] column is parsed back to the
    value that was serialised. *)
Definition getSyncQueue (st : Store) : list QueueItem :=
  foldr insert_by_created_at [] (sync_queue st).

Definition removeFromSyncQueue (queueId : Z) (st : Store) : Store :=
  with_sync_queue (filter (λ q, q_id q ≠ queueId) (sync_queue st)) st.

Definition bump_retry (queueId : Z) (q : QueueItem) : QueueItem :=
  if bool_decide (q_id q = queueId)
  then {| q_id := q_id q; q_expense_id := q_expense_id q;
          q_operation := q_operation q; q_data := q_data q;
          q_created_at := q_created_at q;
          q_retry_count := q_retry_count q + 1 |}
  else q.

Definition incrementSyncRetryCount (queueId : Z) (st : Store) : Store :=
  with_sync_queue (bump_retry queueId <$> sync_queue st) st.

Definition clearSyncQueue (st : Store) : Store := with_sync_queue [] st.

Definition clearFailedSyncItems (maxRetries : Z) (st : Store) : nat * Store :=
  let kept := filter (λ q, (q_retry_count q < maxRetries)%Z) (sync_queue st) in
  (length (sync_queue st) - length kept, with_sync_queue kept st).

(** The groups of [GROUP BY expense_id, operation HAVING COUNT( * ) > 1]. *)
Definition duplicate_groups (q : list QueueItem) : list (string * Operation) :=
  filter (λ k, 1 < length (filter (λ x, same_target k.1 k.2 x = true) q))
         (remove_dups ((λ x, (q_expense_id x, q_operation x)) <$> q)).

(** For one group: the ids [ORDER BY id ASC], all but the first deleted. *)
Definition remove_duplicates_of (k : string * Operation)
    (acc : nat * Store) : nat * Store :=
  let entries :=
    merge_sort Z.le
      (q_id <$> filter (λ x, same_target k.1 k.2 x = true) (sync_queue acc.2)) in
  foldl (λ a qid, (S a.1, removeFromSyncQueue qid a.2)) acc (tail entries).

Definition removeDuplicateSyncQueueEntries (st : Store) : nat * Store :=
  foldl (λ acc k, remove_duplicates_of k acc) (0, st)
        (duplicate_groups (sync_queue st)).

(** ** Expense operations ([lib/expenses-sqlite.ts]) *)

Definition getExpenseById (i : string) (st : Store) : Result LocalExpense :=
  {| data := expenses st !! i; error := None |}.

(** The constraint an [INSERT INTO expenses] of the row violates, if any.
    SQLite stores a NaN as NULL, and it checks the NOT NULL constraints of a
    row before the uniqueness of its key. *)
Definition insert_violates (row : LocalExpense)
    (table : gmap string LocalExpense) : option Constraint :=
  if isNaN (amount row) then Some NotNull_amount
  else match table !! id row with
       | Some _ => Some PrimaryKey_id
       | None => None
       end.

(** What a [catch] of the local store returns for the error of a violated
    constraint: [error instanceof Error ? error.message : fallback]. *)
Definition caught_message (fallback : string) (c : Constraint) : string :=
  default fallback (sqlite_message c).

(** [addExpense]; [newId] is what [generateUUID()] returned. *)
Definition addExpense (newId : string) (expense : ExpenseFormData)
    (userId : string) (st : Store) : Result LocalExpense * Store :=
  let newExpense :=
    {| id := newId; user_id := userId;
       amount := parseFloat (f_amount expense);
       category := f_category expense;
       date := f_date expense;
       notes := string_or_null (f_notes expense);
       receipt_url := option_or_null (f_receipt_url expense);
       created_at := now st; updated_at := now st;
       synced := 0; sync_error := None; last_sync_at := None |} in
  let st1 := tick st in
  match insert_violates newExpense (expenses st1) with
  | Some c =>
      ({| data := None;
          error := Some (caught_message "Failed to add expense" c) |}, st1)
  | None =>
      let st2 := with_expenses (<[newId := newExpense]> (expenses st1)) st1 in
      let st3 := addToSyncQueue newId Create (Some (PayloadExpense newExpense)) st2 in
      ({| data := Some newExpense; error := None |}, st3)
  end.

(** The number of [column = ?] assignments the dynamic query collects from
    the provided fields. *)
Definition provided {A : Type} (o : option A) : nat :=
  match o with
  | Some _ => 1
  | None => 0
  end.

Definition provided_fields (updates : PartialFormData) : nat :=
  provided (u_amount updates) + provided (u_category updates) +
  provided (u_date updates) + provided (u_notes updates) +
  provided (u_receipt_url updates).

(** The SET clause of [updateExpense] applied to one row. *)
Definition apply_updates (updates : PartialFormData) (stamp : string)
    (e : LocalExpense) : LocalExpense :=
  {| id := id e; user_id := user_id e;
     amount := match u_amount updates with
               | Some a => parseFloat a
               | None => amount e
               end;
     category := default (category e) (u_category updates);
     date := default (date e) (u_date updates);
     notes := match u_notes updates with
              | Some n => string_or_null n
              | None => notes e
              end;
     receipt_url := match u_receipt_url updates with
                    | Some u => string_or_null u
                    | None => receipt_url e
                    end;
     created_at := created_at e; updated_at := stamp;
     synced := 0; sync_error := sync_error e;
     last_sync_at := last_sync_at e |}.

(** The amount of the update is given and parses to NaN. *)
Definition amount_is_NaN (updates : PartialFormData) : bool :=
  match u_amount updates with
  | Some a => isNaN (parseFloat a)
  | None => false
  end.

(** The constraint the UPDATE of [updateExpense] violates, if any: the NOT
    NULL of [amount], when the WHERE clause matches a row and the new amount
    is NaN. With no matching row nothing is checked. *)
Definition update_violates (i : string) (updates : PartialFormData)
    (table : gmap string LocalExpense) : option Constraint :=
  match table !! i with
  | Some _ => if amount_is_NaN updates then Some NotNull_amount else None
  | None => None
  end.

Definition updateExpense (i : string) (updates : PartialFormData)
    (st : Store) : Result LocalExpense * Store :=
  let stamp := now st in
  let st1 := tick st in
  if bool_decide (provided_fields updates + 2 = 2) then
    ({| data := None; error := Some "No fields to update" |}, st1)
  else
  match update_violates i updates (expenses st1) with
  | Some c =>
      ({| data := None;
          error := Some (caught_message "Failed to update expense" c) |}, st1)
  | None =>
    let st2 := with_expenses (alter (apply_updates updates stamp) i (expenses st1)) st1 in
    let st3 := addToSyncQueue i Update (Some (PayloadUpdates updates)) st2 in
    ({| data := expenses st3 !! i; error := None |}, st3)
  end.

(** The statements of [deleteExpense], in program order. *)
Definition deleteExpense_steps (i : string) : list (Store → Store) :=
  [ addToSyncQueue i Delete None;
    λ st, with_expenses (delete i (expenses st)) st ].

Definition run_steps (steps : list (Store → Store)) (st : Store) : Store :=
  foldl (λ s f, f s) st steps.

Definition deleteExpense (i : string) (st : Store) : option string * Store :=
  (None, run_steps (deleteExpense_steps i) st).

Definition upsertExpenseFromRemote (expense : Expense) (st : Store)
    : Result LocalExpense * Store :=
  let existing := expenses st !! r_id expense in
  let stamp := now st in
  let st1 := tick st in
  let localExpense :=
    {| id := r_id expense; user_id := r_user_id expense;
       amount := r_amount expense; category := r_category expense;
       date := r_date expense; notes := r_notes expense;
       receipt_url := r_receipt_url expense;
       created_at := r_created_at expense;
       updated_at := r_updated_at expense;
       synced := 1; sync_error := None; last_sync_at := Some stamp |} in
  let m :=
    match existing with
    | Some old =>
        (* UPDATE expenses SET ... synced = 1, last_sync_at = ? WHERE id = ? *)
        <[r_id expense :=
            {| id := id old; user_id := user_id localExpense;
               amount := amount localExpense;
               category := category localExpense;
               date := date localExpense;
               notes := option_or_null (notes localExpense);
               receipt_url := option_or_null (receipt_url localExpense);
               created_at := created_at localExpense;
               updated_at := updated_at localExpense;
               synced := 1; sync_error := sync_error old;
               last_sync_at := last_sync_at localExpense |}]> (expenses st1)
    | None =>
        (* INSERT INTO expenses (...) VALUES (..., 1, ?) *)
        <[r_id expense :=
            {| id := id localExpense; user_id := user_id localExpense;
               amount := amount localExpense;
               category := category localExpense;
               date := date localExpense;
               notes := option_or_null (notes localExpense);
               receipt_url := option_or_null (receipt_url localExpense);
               created_at := created_at localExpense;
               updated_at := updated_at localExpense;
               synced := 1; sync_error := None;
               last_sync_at := last_sync_at localExpense |}]> (expenses st1)
    end in
  ({| data := Some localExpense; error := None |}, with_expenses m st1).

Definition markExpenseAsSynced (i : string) (st : Store) : Store :=
  let stamp := now st in
  let st1 := tick st in
  with_expenses
    (alter (λ e,
       {| id := id e; user_id := user_id e; amount := amount e;
          category := category e; date := date e; notes := notes e;
          receipt_url := receipt_url e; created_at := created_at e;
          updated_at := updated_at e;
          synced := 1; sync_error := None; last_sync_at := Some stamp |})
       i (expenses st1)) st1.

Definition markExpenseSyncFailed (i : string) (msg : string) (st : Store) : Store :=
  with_expenses
    (alter (λ e,
       {| id := id e; user_id := user_id e; amount := amount e;
          category := category e; date := date e; notes := notes e;
          receipt_url := receipt_url e; created_at := created_at e;
          updated_at := updated_at e;
          synced := synced e; sync_error := Some msg;
          last_sync_at := last_sync_at e |})
       i (expenses st)) st.

Definition deleteAllUserExpenses (userId : string) (st : Store)
    : option string * Store :=
  (None,
   with_expenses (filter (λ kv, user_id kv.2 ≠ userId) (expenses st)) st).


(** ** The remote store ([lib/expenses-supabase.ts])

    The Supabase client is outside the program: a remote store is any state
    [R] with the four operations, each returning the [error] of its
    [{ data, error }] response ([None] is [null]) and the next state. The
    form data an operation receives carries a valid date; what the adapter
    does with an Invalid Date is part of [push_attempt]. *)
Class Remote (R : Type) := {
  remote_addExpense :
    ExpenseFormData → string → option string → R → option RemoteError * R;
  remote_updateExpense :
    string → ExpenseFormData → R → option RemoteError * R;
  remote_deleteExpense : string → R → option RemoteError * R;
  remote_getExpenses :
    string → R → (option (list Expense) * option RemoteError) * R;
}.

(** ** The sync service ([lib/sync-service.ts]) *)

Definition isOnline (state : NetInfoState) : bool :=
  bool_decide (isConnected state = Some true) &&
  bool_decide (isInternetReachable state = Some true).

(** The message the [catch] of the push loop extracts from a thrown error
    object. *)
Definition push_error_message (err : RemoteError) : string :=
  if e_instanceof_Error err then default "" (e_message err)
  else JSON_stringify err.

(** The message the outer [catch] of [pullFromRemote] extracts. *)
Definition pull_error_message (err : RemoteError) : string :=
  if e_instanceof_Error err then default "" (e_message err)
  else "Unknown error".

Definition message_includes (err : RemoteError) (sub : string) : bool :=
  match e_message err with
  | Some m => includes m sub
  | None => false
  end.

Definition isDuplicate (err : RemoteError) : bool :=
  bool_decide (e_code err = Some "23505") ||
  message_includes err "duplicate key" ||
  message_includes err "unique constraint".

Definition isNotFound (errorMsg : string) : bool :=
  includes errorMsg "not found" || includes errorMsg "No rows".

Definition isInvalidUUID (errorMsg : string) : bool :=
  includes errorMsg "invalid input syntax for type uuid".

Definition MAX_RETRIES : Z := 3.

Section Sync.
Context {R : Type} `{!Remote R}.

(** The variables of [pushToRemote] while its loop runs, with the remote
    store and the calls made to it so far (oldest first). *)
Record PushState := {
  p_store : Store;
  p_remote : R;
  successCount : nat;
  p_errors : list string;
  p_calls : list RemoteCall;
}.

(** How the [try] block of one iteration ends. *)
Inductive Attempt :=
  | Completed (s : PushState)
  | Thrown (err : RemoteError) (s : PushState).

Definition with_store (st : Store) (s : PushState) : PushState :=
  {| p_store := st; p_remote := p_remote s; successCount := successCount s;
     p_errors := p_errors s; p_calls := p_calls s |}.

Definition call_remote {A : Type} (c : RemoteCall) (f : R → A * R)
    (s : PushState) : A * PushState :=
  let '(a, r) := f (p_remote s) in
  (a, {| p_store := p_store s; p_remote := r; successCount := successCount s;
         p_errors := p_errors s; p_calls := p_calls s ++ [c] |}).

Definition count_success (s : PushState) : PushState :=
  {| p_store := p_store s; p_remote := p_remote s;
     successCount := S (successCount s);
     p_errors := p_errors s; p_calls := p_calls s |}.

Definition push_error (msg : string) (s : PushState) : PushState :=
  {| p_store := p_store s; p_remote := p_remote s;
     successCount := successCount s;
     p_errors := p_errors s ++ [msg]; p_calls := p_calls s |}.

(** The [expenseData] the loop prepares from the local row, with
    [date: new Date(localExpense.date)]; [None] when that is an Invalid
    Date. *)
Definition expenseData_of (localExpense : LocalExpense)
    : option ExpenseFormData :=
  iso ← Date_toISOString (date localExpense);
  Some {| f_amount := number_toString (amount localExpense);
          f_category := category localExpense;
          f_date := iso;
          f_notes := default "" (option_or_null (notes localExpense));
          f_receipt_url := receipt_url localExpense |}.

(** The [RangeError] that [expense.date.toISOString()] throws in the adapter
    ([addExpense] and [updateExpense] of [lib/expenses-supabase.ts]) when the
    date is invalid, before any request is sent. *)
Definition invalid_date_error : RemoteError :=
  {| e_instanceof_Error := true; e_code := None;
     e_message := Some RangeError_message |}.

(** The [try] block of one iteration, for an item below the retry ceiling. *)
Definition push_attempt (userId : string) (item : QueueItem)
    (s : PushState) : Attempt :=
  match q_operation item with
  | Create | Update =>
      match data (getExpenseById (q_expense_id item) (p_store s)) with
      | None =>
          Completed (with_store (removeFromSyncQueue (q_id item) (p_store s)) s)
      | Some localExpense =>
        match expenseData_of localExpense with
        | None => Thrown invalid_date_error s
        | Some expenseData =>
          let add :=
            call_remote
              (CallAddExpense expenseData userId (Some (q_expense_id item)))
              (remote_addExpense expenseData userId (Some (q_expense_id item))) in
          let finish (s' : PushState) :=
            let st1 := markExpenseAsSynced (q_expense_id item) (p_store s') in
            let st2 := removeFromSyncQueue (q_id item) st1 in
            Completed (count_success (with_store st2 s')) in
          if bool_decide (q_operation item = Create) then
            let '(err, s1) := add s in
            match err with
            | Some e => if isDuplicate e then finish s1 else Thrown e s1
            | None => finish s1
            end
          else
            let '(updateError, s1) :=
              call_remote (CallUpdateExpense (q_expense_id item) expenseData)
                (remote_updateExpense (q_expense_id item) expenseData) s in
            match updateError with
            | Some _ =>
                let '(createError, s2) := add s1 in
                match createError with
                | Some e => Thrown e s2
                | None => finish s2
                end
            | None => finish s1
            end
        end
      end
  | Delete =>
      let '(err, s1) :=
        call_remote (CallDeleteExpense (q_expense_id item))
          (remote_deleteExpense (q_expense_id item)) s in
      let finish :=
        Completed
          (count_success
             (with_store (removeFromSyncQueue (q_id item) (p_store s1)) s1)) in
      match err with
      | Some e =>
          let errorMsg := default "" (e_message e) in
          if negb (isNotFound errorMsg) && negb (isInvalidUUID errorMsg)
          then Thrown e s1
          else finish
      | None => finish
      end
  end.

(** One iteration of the [for (const item of queue)] loop. *)
Definition push_item (userId : string) (s : PushState) (item : QueueItem)
    : PushState :=
  if bool_decide (MAX_RETRIES ≤ q_retry_count item)%Z then s
  else
    match push_attempt userId item s with
    | Completed s' => s'
    | Thrown err s' =>
        let errorMsg := push_error_message err in
        let s1 :=
          push_error
            (operation_name (q_operation item) +:+ " " +:+
             q_expense_id item +:+ ": " +:+ errorMsg) s' in
        let st1 := incrementSyncRetryCount (q_id item) (p_store s1) in
        let st2 := markExpenseSyncFailed (q_expense_id item) errorMsg st1 in
        with_store st2 s1
    end.

Definition push_loop (userId : string) (queue : list QueueItem)
    (s : PushState) : PushState :=
  foldl (push_item userId) s queue.

Definition pushToRemote (userId : string) (st : Store) (r : R) : PushState :=
  let st1 := (removeDuplicateSyncQueueEntries st).2 in
  let queue := getSyncQueue st1 in
  push_loop userId queue
    {| p_store := st1; p_remote := r; successCount := 0;
       p_errors := []; p_calls := [] |}.

(** What [pullFromRemote] leaves behind: its [{ count, errors }], the store
    and the remote store. *)
Record PullState := {
  l_store : Store;
  l_remote : R;
  l_count : nat;
  l_errors : list string;
}.

Definition pullFromRemote (userId : string) (st : Store) (r : R) : PullState :=
  let '((remoteExpenses, err), r1) := remote_getExpenses userId r in
  match err with
  | Some e =>
      {| l_store := st; l_remote := r1; l_count := 0;
         l_errors := ["Pull failed: " +:+ pull_error_message e] |}
  | None =>
      match remoteExpenses with
      | None | Some [] =>
          {| l_store := st; l_remote := r1; l_count := 0; l_errors := [] |}
      | Some records =>
          let '(n, st1) :=
            foldl (λ acc remoteExpense,
                     (S acc.1, (upsertExpenseFromRemote remoteExpense acc.2).2))
                  (0, st) records in
          {| l_store := st1; l_remote := r1; l_count := n; l_errors := [] |}
      end
  end.

(** What a sync cycle leaves behind: the [SyncResult] it returns, the store,
    the remote store and the calls made to it. *)
Record SyncOutcome := {
  o_result : SyncResult;
  o_store : Store;
  o_remote : R;
  o_calls : list RemoteCall;
}.

Definition syncExpenses (net : NetInfoState) (userId : string)
    (st : Store) (r : R) : SyncOutcome :=
  if negb (isOnline net) then
    {| o_result := {| success := false; pushed := 0; pulled := 0;
                      errors := ["Device is offline"] |};
       o_store := st; o_remote := r; o_calls := [] |}
  else
    let pushResult := pushToRemote userId st r in
    let pullResult :=
      pullFromRemote userId (p_store pushResult) (p_remote pushResult) in
    let allErrors := p_errors pushResult ++ l_errors pullResult in
    {| o_result := {| success := bool_decide (length allErrors = 0);
                      pushed := successCount pushResult;
                      pulled := l_count pullResult;
                      errors := allErrors |};
       o_store := l_store pullResult; o_remote := l_remote pullResult;
       o_calls := p_calls pushResult ++ [CallGetExpenses userId] |}.

End Sync.

(** ** Sequences of operations and the vocabulary of the properties *)

(** A mutation the user interface asks of the local store; [OpAdd] carries
    the id [generateUUID()] returned for it. *)
Inductive LocalOp :=
  | OpAdd (newId : string) (expense : ExpenseFormData) (userId : string)
  | OpUpdate (i : string) (updates : PartialFormData)
  | OpDelete (i : string).

Definition run_local (st : Store) (op : LocalOp) : Store :=
  match op with
  | OpAdd newId expense userId => (addExpense newId expense userId st).2
  | OpUpdate i updates => (updateExpense i updates st).2
  | OpDelete i => (deleteExpense i st).2
  end.

Definition run_locals (ops : list LocalOp) (st : Store) : Store :=
  foldl run_local st ops.

(** The states the local-store operations and the sync service can produce
    from an empty database, whatever the remote store does. *)
Inductive reachable : Store → Prop :=
  | reachable_empty : reachable empty_store
  | reachable_local st op : reachable st → reachable (run_local st op)
  | reachable_upsert st expense :
      reachable st → reachable (upsertExpenseFromRemote expense st).2
  | reachable_push (R : Type) `{!Remote R} st userId (r : R) :
      reachable st → reachable (p_store (pushToRemote userId st r))
  | reachable_pull (R : Type) `{!Remote R} st userId (r : R) :
      reachable st → reachable (l_store (pullFromRemote userId st r))
  | reachable_sync (R : Type) `{!Remote R} st net userId (r : R) :
      reachable st → reachable (o_store (syncExpenses net userId st r)).

(** The queue rows for one [(expense_id, operation)] pair. *)
Definition entries_for (i : string) (op : Operation) (st : Store)
    : list QueueItem :=
  filter (λ q, same_target i op q = true) (sync_queue st).

(** At most one queue row per [(expense_id, operation)] pair. *)
Definition queue_dedup (st : Store) : Prop :=
  ∀ i op, length (entries_for i op st) ≤ 1.

Definition has_entry (i : string) (op : Operation) (st : Store) : Prop :=
  Exists (λ q, q_expense_id q = i ∧ q_operation q = op) (sync_queue st).

(** Some queue row references the expense id. *)
Definition referenced (i : string) (st : Store) : Prop :=
  Exists (λ q, q_expense_id q = i) (sync_queue st).

(** A synced row has no queue row referencing it, and a referenced row is
    unsynced (or is gone). *)
Definition sync_consistent (st : Store) : Prop :=
  (∀ i e, expenses st !! i = Some e → synced e = 1%Z → ¬ referenced i st) ∧
  (∀ q, q ∈ sync_queue st →
        match expenses st !! q_expense_id q with
        | Some e => synced e = 0%Z
        | None => True
        end).

(** The rowids of the queue are distinct ([id INTEGER PRIMARY KEY]). *)
Definition queue_ids_unique (st : Store) : Prop :=
  NoDup (q_id <$> sync_queue st).

(** What one loop iteration can do to the queue: nothing, delete the rows
    with the item's rowid, or bump their retry count. *)
Inductive queue_effect (item : QueueItem) (before : list QueueItem)
    : list QueueItem → Prop :=
  | effect_none : queue_effect item before before
  | effect_removed :
      queue_effect item before (filter (λ q, q_id q ≠ q_id item) before)
  | effect_retried :
      queue_effect item before (bump_retry (q_id item) <$> before).

(** ** Reading the local store ([lib/expenses-sqlite.ts], [lib/db.ts]) *)

(** The rows a [SELECT * FROM expenses WHERE ...] returns, in the order of
    the table scan. *)
Definition rows_where (P : LocalExpense → Prop) `{!∀ e, Decision (P e)}
    (st : Store) : list LocalExpense :=
  (map_to_list (filter (λ kv, P kv.2) (expenses st))).*2.

(** [ORDER BY date DESC, created_at DESC], on the text of the two columns. *)
Definition newest_first (a b : LocalExpense) : Prop :=
  match String.compare (date b) (date a) with
  | Lt => True
  | Eq => String.le (created_at b) (created_at a)
  | Gt => False
  end.

Global Instance newest_first_dec : RelDecision newest_first.
Proof.
  intros a b. unfold newest_first.
  destruct (String.compare (date b) (date a)); apply _.
Defined.

Definition getExpenses (userId : string) (st : Store)
    : Result (list LocalExpense) :=
  {| data := Some (merge_sort newest_first
                     (rows_where (λ e, user_id e = userId) st));
     error := None |}.

Definition getUnsyncedExpenses (userId : string) (st : Store)
    : list LocalExpense :=
  rows_where (λ e, user_id e = userId ∧ synced e = 0%Z) st.





Section ForcePull.
Context {R : Type} `{!Remote R}.

Definition forcePullFromRemote (net : NetInfoState) (userId : string)
    (st : Store) (r : R) : SyncOutcome :=
  if negb (isOnline net) then
    {| o_result := {| success := false; pushed := 0; pulled := 0;
                      errors := ["Device is offline"] |};
       o_store := st; o_remote := r; o_calls := [] |}
  else
    let pullResult := pullFromRemote userId st r in
    {| o_result := {| success := bool_decide (length (l_errors pullResult) = 0);
                      pushed := 0;
                      pulled := l_count pullResult;
                      errors := l_errors pullResult |};
       o_store := l_store pullResult; o_remote := l_remote pullResult;
       o_calls := [CallGetExpenses userId] |}.

End ForcePull.

(** The user data of an expense row: every column but the three the sync
    service maintains ([synced], [sync_error], [last_sync_at]). *)
Definition same_user_data (a b : LocalExpense) : Prop :=
  id a = id b ∧ user_id a = user_id b ∧ amount a = amount b ∧
  category a = category b ∧ date a = date b ∧ notes a = notes b ∧
  receipt_url a = receipt_url b ∧ created_at a = created_at b ∧
  updated_at a = updated_at b.

(** The same ids are in both tables, with the same user data. *)
Definition keeps_user_data (before after : gmap string LocalExpense) : Prop :=
  ∀ i, option_Forall2 same_user_data (before !! i) (after !! i).


(** The queue rows the push loop does not skip. *)
Definition below_ceiling (l : list QueueItem) : list QueueItem :=
  filter (λ q, (q_retry_count q < MAX_RETRIES)%Z) l.

(** The local row holds the data of the remote record and is flagged
    synced. *)
Definition mirrors (remoteExpense : Expense) (row : LocalExpense) : Prop :=
  user_id row = r_user_id remoteExpense ∧
  amount row = r_amount remoteExpense ∧
  category row = r_category remoteExpense ∧
  date row = r_date remoteExpense ∧
  notes row = option_or_null (r_notes remoteExpense) ∧
  receipt_url row = option_or_null (r_receipt_url remoteExpense) ∧
  created_at row = r_created_at remoteExpense ∧
  updated_at row = r_updated_at remoteExpense ∧
  synced row = 1%Z ∧ is_Some (last_sync_at row).

(** ** The expenses context ([contexts/ExpensesContext.tsx]) *)

(** An element of the in-memory [expenses] list: the placeholder of an
    optimistic add, or a row the local store returned. *)
Inductive ListedExpense :=
  | Placeholder (e : Expense)
  | FromStore (row : LocalExpense).

Definition listed_id (e : ListedExpense) : string :=
  match e with
  | Placeholder e => r_id e
  | FromStore row => id row
  end.

(** [prev.map((e) => (e.id === id ? replacement : e))] *)
Definition replace_listed (i : string) (replacement : ListedExpense)
    (l : list ListedExpense) : list ListedExpense :=
  (λ e, if bool_decide (listed_id e = i) then replacement else e) <$> l.

(** [addExpense] of the context; [user] is [user?.id], [tempId] is
    [`temp-${Date.now()}`] and [newId] the id [generateUUID()] returns inside
    the local store. It returns the [error] of its result, the list and the
    store. *)
Definition context_addExpense (user : option string) (tempId newId : string)
    (expenseData : ExpenseFormData) (prev : list ListedExpense) (st : Store)
    : option string * list ListedExpense * Store :=
  match option_or_null user with
  | None => (Some "Not authenticated", prev, st)
  | Some userId =>
      let optimisticExpense :=
        {| r_id := tempId; r_user_id := userId;
           r_amount := parseFloat (f_amount expenseData);
           r_category := f_category expenseData;
           r_date := f_date expenseData;
           r_notes := string_or_null (f_notes expenseData);
           r_receipt_url := option_or_null (f_receipt_url expenseData);
           r_created_at := now st;
           r_updated_at := now (tick st) |} in
      let shown := Placeholder optimisticExpense :: prev in
      let '(res, st1) := addExpense newId expenseData userId (tick (tick st)) in
      match error res with
      | Some message =>
          (Some message, filter (λ e, listed_id e ≠ tempId) shown, st1)
      | None =>
          match data res with
          | Some row => (None, replace_listed tempId (FromStore row) shown, st1)
          | None => (None, shown, st1)
          end
      end
  end.

(** The optimistic copy [updateExpense] of the context shows while the
    local store works: [{ ...backup, amount: ..., updated_at: now }]. *)
Definition optimistic_update (updates : PartialFormData) (stamp : string)
    (backup : ListedExpense) : ListedExpense :=
  let new_amount (old : number) :=
    match option_or_null (u_amount updates) with
    | Some a => parseFloat a
    | None => old
    end in
  let new_category (old : string) :=
    default old (option_or_null (u_category updates)) in
  let new_date (old : string) := default old (u_date updates) in
  let new_notes (old : option string) :=
    match u_notes updates with
    | Some n => Some n
    | None => old
    end in
  let new_receipt (old : option string) :=
    match u_receipt_url updates with
    | Some u => Some u
    | None => old
    end in
  match backup with
  | Placeholder e =>
      Placeholder
        {| r_id := r_id e; r_user_id := r_user_id e;
           r_amount := new_amount (r_amount e);
           r_category := new_category (r_category e);
           r_date := new_date (r_date e);
           r_notes := new_notes (r_notes e);
           r_receipt_url := new_receipt (r_receipt_url e);
           r_created_at := r_created_at e; r_updated_at := stamp |}
  | FromStore row =>
      FromStore
        {| id := id row; user_id := user_id row;
           amount := new_amount (amount row);
           category := new_category (category row);
           date := new_date (date row);
           notes := new_notes (notes row);
           receipt_url := new_receipt (receipt_url row);
           created_at := created_at row; updated_at := stamp;
           synced := synced row; sync_error := sync_error row;
           last_sync_at := last_sync_at row |}
  end.

(** [updateExpense] of the context. *)
Definition context_updateExpense (i : string) (updates : PartialFormData)
    (prev : list ListedExpense) (st : Store)
    : option string * list ListedExpense * Store :=
  let backup := List.find (λ e, bool_decide (listed_id e = i)) prev in
  let '(shown, st0) :=
    match backup with
    | Some b =>
        (replace_listed i (optimistic_update updates (now st) b) prev, tick st)
    | None => (prev, st)
    end in
  let '(res, st1) := updateExpense i updates st0 in
  match error res with
  | Some message =>
      (Some message,
       match backup with
       | Some b => replace_listed i b shown
       | None => shown
       end, st1)
  | None =>
      match data res with
      | Some row => (None, replace_listed i (FromStore row) shown, st1)
      | None => (None, shown, st1)
      end
  end.

(** ** UUIDs ([lib/uuid.ts]) *)

(** The digit [v.toString(16)] writes for [0 ≤ v < 16]. *)
Definition hex_char (v : Z) : Ascii.ascii :=
  match v with
  | 0 => "0" | 1 => "1" | 2 => "2" | 3 => "3" | 4 => "4" | 5 => "5"
  | 6 => "6" | 7 => "7" | 8 => "8" | 9 => "9" | 10 => "a" | 11 => "b"
  | 12 => "c" | 13 => "d" | 14 => "e" | _ => "f"
  end%Z%char.

(** [v.toString(16)] for a non-negative integer. *)
Fixpoint toString16_go (fuel : nat) (v : Z) (acc : string) : string :=
  match fuel with
  | O => acc
  | S fuel' =>
      let acc' := String (hex_char (v mod 16)) acc in
      if (v <? 16)%Z then acc' else toString16_go fuel' (v / 16) acc'
  end.

Definition toString16 (v : Z) : string :=
  toString16_go (S (Z.to_nat v)) v "".

Definition uuid_template : string := "xxxxxxxx-xxxx-4xxx-yxxx-xxxxxxxxxxxx".

(** [template.replace(/[xy]/g, (c) => ...)]: the callback runs once for each
    [x] or [y], left to right; [rand n] is the value of
    [(Math.random() * 16) | 0] at its n-th evaluation. *)
Fixpoint replace_xy (template : string) (rand : nat → Z) (n : nat) : string :=
  match template with
  | EmptyString => EmptyString
  | String c rest =>
      if bool_decide (c = "x"%char ∨ c = "y"%char) then
        let r := rand n in
        let v := if bool_decide (c = "x"%char) then r
                 else Z.lor (Z.land r 3) 8 in
        toString16 v +:+ replace_xy rest rand (S n)
      else String c (replace_xy rest rand n)
  end.

(** [generateUUID]; [randomUUID] is the result of [crypto.randomUUID()] when
    the runtime has it. *)
Definition generateUUID (randomUUID : option string) (rand : nat → Z)
    : string :=
  match randomUUID with
  | Some uuid => uuid
  | None => replace_xy uuid_template rand 0
  end.

(** The character classes of the regular expression of [isValidUUID], read
    with its [/i] flag. *)
Inductive CharClass := HexDigit | Dash | Version | Variant.

Definition is_digit_between (lo hi c : Ascii.ascii) : bool :=
  (Ascii.nat_of_ascii lo <=? Ascii.nat_of_ascii c)%nat &&
  (Ascii.nat_of_ascii c <=? Ascii.nat_of_ascii hi)%nat.

Definition in_class (cls : CharClass) (c : Ascii.ascii) : bool :=
  match cls with
  | HexDigit =>
      is_digit_between "0" "9" c || is_digit_between "a" "f" c ||
      is_digit_between "A" "F" c
  | Dash => bool_decide (c = "-"%char)
  | Version => is_digit_between "1" "5" c
  | Variant =>
      is_digit_between "8" "9" c || is_digit_between "a" "b" c ||
      is_digit_between "A" "B" c
  end.

(** [/^[0-9a-f]{8}-[0-9a-f]{4}-[1-5][0-9a-f]{3}-[89ab][0-9a-f]{3}-[0-9a-f]{12}$/i] *)
Definition uuid_pattern : list CharClass :=
  replicate 8 HexDigit ++ [Dash] ++ replicate 4 HexDigit ++ [Dash] ++
  [Version] ++ replicate 3 HexDigit ++ [Dash] ++
  [Variant] ++ replicate 3 HexDigit ++ [Dash] ++ replicate 12 HexDigit.

Fixpoint matches_classes (pattern : list CharClass) (s : string) : bool :=
  match pattern, s with
  | [], EmptyString => true
  | cls :: pattern', String c s' => in_class cls c && matches_classes pattern' s'
  | _, _ => false
  end.

Definition isValidUUID (uuid : string) : bool :=
  matches_classes uuid_pattern uuid.

(** The [(expense_id, operation)] pair of a queue row. *)
Definition pair_of (q : QueueItem) : string * Operation :=
  (q_expense_id q, q_operation q).

(** [x] has the smallest rowid among the rows of [l] for its pair. *)
Definition oldest_of_pair (l : list QueueItem) (x : QueueItem) : Prop :=
  Forall (λ y, pair_of y = pair_of x → (q_id x ≤ q_id y)%Z) l.

(** The rows one group of the clean-up loop leaves. *)
Definition after_group (k : string * Operation)
    (l : list QueueItem) : list QueueItem :=
  filter (λ x, q_id x ∉
     tail (merge_sort Z.le
             (q_id <$> filter (λ y, same_target k.1 k.2 y = true) l))) l.

(** The status the sync context shows for a finished cycle
    ([setSyncStatus(result.success ? 'success' : 'error')]). *)
Definition status_of_result (result : SyncResult) : SyncStatus :=
  if success result then StatusSuccess else StatusError.

End Model.

(** ** Sample platform, remote stores and database states *)

(** A platform whose numbers are their decimal text: a text that does not
    start with a digit parses to NaN; a date parses when it is a full stamp
    (24 characters) or a day (10 characters). *)
Definition sample_platform : Platform :=
  {| number := string;
     parseFloat := λ s,
       match s with
       | String c _ => if is_digit_between "0" "9" c then s else "NaN"
       | EmptyString => "NaN"
       end;
     number_toString := λ n, n;
     isNaN := λ n, bool_decide (n = "NaN");
     clock := λ n, "2024-05-01T10:00:0" +:+ pretty n +:+ ".000Z";
     Date_toISOString := λ text,
       if bool_decide (String.length text = 24) then Some text
       else if bool_decide (String.length text = 10)
            then Some (text +:+ "T00:00:00.000Z")
            else None;
     RangeError_message := "Invalid time value";
     sqlite_message := λ c,
       Some match c with
            | NotNull_amount => "NOT NULL constraint failed: expenses.amount"
            | PrimaryKey_id => "UNIQUE constraint failed: expenses.id"
            end;
     JSON_stringify := λ e, default "{}" (e_message e) |}.

(** A remote store that already holds every record: inserts meet the
    primary-key conflict of PostgreSQL, everything else succeeds. *)
Definition conflicting_remote : @Remote sample_platform unit :=
  {| remote_addExpense := λ _ _ _ r,
       (Some {| e_instanceof_Error := false; e_code := Some "23505";
                e_message := Some
                  "duplicate key value violates unique constraint" |}, r);
     remote_updateExpense := λ _ _ r, (None, r);
     remote_deleteExpense := λ _ r, (None, r);
     remote_getExpenses := λ _ r, ((Some [], None), r) |}.

(** A remote store whose every call fails with a server error. *)
Definition failing_remote : @Remote sample_platform unit :=
  let err := {| e_instanceof_Error := false; e_code := Some "500";
                e_message := Some "server error" |} in
  {| remote_addExpense := λ _ _ _ r, (Some err, r);
     remote_updateExpense := λ _ _ r, (Some err, r);
     remote_deleteExpense := λ _ r, (Some err, r);
     remote_getExpenses := λ _ r, ((None, Some err), r) |}.

Definition offline_net : NetInfoState :=
  {| isConnected := Some false; isInternetReachable := Some false |}.

Definition lunch : ExpenseFormData :=
  {| f_amount := "12.50"; f_category := "Food";
     f_date := "2024-05-01T00:00:00.000Z"; f_notes := "";
     f_receipt_url := None |}.

Definition recategorise : PartialFormData :=
  {| u_amount := None; u_category := Some "Travel"; u_date := None;
     u_notes := None; u_receipt_url := None |}.

(** ** Concrete runs *)

Section Runs.
Local Existing Instance sample_platform.

Definition online_net : NetInfoState :=
  {| isConnected := Some true; isInternetReachable := Some true |}.

(** A remote store where inserts work (a second insert of a record meets the
    primary-key conflict) while updates and listings time out; the state
    says whether the record is there. *)
Definition update_timeout_remote : Remote bool :=
  let timeout := {| e_instanceof_Error := true; e_code := None;
                    e_message := Some "Network request failed" |} in
  {| remote_addExpense := λ _ _ _ (present : bool),
       if present
       then (Some {| e_instanceof_Error := false; e_code := Some "23505";
                     e_message := Some
                       "duplicate key value violates unique constraint" |},
             true)
       else (None, true);
     remote_updateExpense := λ _ _ present, (Some timeout, present);
     remote_deleteExpense := λ _ _, (None, false);
     remote_getExpenses := λ _ present, ((None, Some timeout), present) |}.

(** One expense added while offline. *)
Definition one_expense_store : Store :=
  run_locals [OpAdd "e1" lunch "user-1"] empty_store.

(** The expense added and then edited while offline, then one sync cycle
    against [update_timeout_remote]. *)
Definition edited_then_synced_store : Store :=
  o_store
    (syncExpenses (Remote0 := update_timeout_remote) online_net "user-1"
       (run_locals [OpAdd "e1" lunch "user-1"; OpUpdate "e1" recategorise]
          empty_store)
       false).

(** Two queue rows, the older rowid stamped later (the wall clock was set
    back in between) and already at the retry ceiling. *)
Definition clock_set_back_store : Store :=
  {| expenses := ∅;
     sync_queue :=
       [ {| q_id := 1; q_expense_id := "a"; q_operation := Create;
            q_data := None; q_created_at := "2024-05-02T09:00:00.000Z";
            q_retry_count := 3 |};
         {| q_id := 2; q_expense_id := "b"; q_operation := Create;
            q_data := None; q_created_at := "2024-05-01T09:00:00.000Z";
            q_retry_count := 0 |} ];
     sync_queue_seq := 2; ticks := 0 |}.

(** The expense added, three sync cycles against [failing_remote], then the
    expense deleted. *)
Definition thrice_failed_then_deleted_store : Store :=
  let sync (st : Store) :=
    o_store (syncExpenses (Remote0 := failing_remote) online_net "user-1" st tt) in
  run_locals [OpDelete "e1"] (sync (sync (sync one_expense_store))).

(** The push state when the loop starts on a store. *)
Definition push_start {R : Type} (st : Store) (r : R) : @PushState _ R :=
  {| p_store := st; p_remote := r; successCount := 0; p_errors := [];
     p_calls := [] |}.

(** The oldest row of the queue. *)
Definition first_queue_row (st : Store) : QueueItem :=
  default
    {| q_id := 0; q_expense_id := ""; q_operation := Create; q_data := None;
       q_created_at := ""; q_retry_count := 0 |}
    (head (sync_queue st)).

(** A queued [update] for an expense that is no longer in the table. *)
Definition orphan_update_store : Store :=
  run_locals [OpUpdate "gone" recategorise] empty_store.

(** The expense added and then edited while offline. *)
Definition edited_offline_store : Store :=
  run_locals [OpAdd "e1" lunch "user-1"; OpUpdate "e1" recategorise]
    empty_store.

(** A queue written before the duplicate check existed: two [update] rows
    for the same expense. *)
Definition duplicated_queue_store : Store :=
  {| expenses := ∅;
     sync_queue :=
       [ {| q_id := 1; q_expense_id := "a"; q_operation := Update;
            q_data := None; q_created_at := "2024-05-01T09:00:00.000Z";
            q_retry_count := 0 |};
         {| q_id := 2; q_expense_id := "a"; q_operation := Update;
            q_data := None; q_created_at := "2024-05-01T09:00:01.000Z";
            q_retry_count := 0 |};
         {| q_id := 3; q_expense_id := "b"; q_operation := Delete;
            q_data := None; q_created_at := "2024-05-01T09:00:02.000Z";
            q_retry_count := 0 |} ];
     sync_queue_seq := 3; ticks := 0 |}.

(** A queued delete of an expense the table no longer holds. *)
Definition deleted_offline_store : Store :=
  run_locals [OpDelete "e1"] empty_store.

(** A remote store that holds no record: deletes answer "not found",
    inserts succeed, updates find no row. *)
Definition empty_remote : Remote unit :=
  let missing := {| e_instanceof_Error := false; e_code := Some "PGRST116";
                    e_message := Some "Record not found" |} in
  {| remote_addExpense := λ _ _ _ r, (None, r);
     remote_updateExpense := λ _ _ r, (Some missing, r);
     remote_deleteExpense := λ _ r, (Some missing, r);
     remote_getExpenses := λ _ r, ((Some [], None), r) |}.

(** A remote store whose listing returns the records it holds. *)
Definition listing_remote : Remote (list Expense) :=
  {| remote_addExpense := λ _ _ _ r, (None, r);
     remote_updateExpense := λ _ _ r, (None, r);
     remote_deleteExpense := λ _ r, (None, r);
     remote_getExpenses := λ _ r, ((Some r, None), r) |}.


(** The second row of the queue. *)
Definition second_queue_row (st : Store) : QueueItem :=
  default
    {| q_id := 0; q_expense_id := ""; q_operation := Create; q_data := None;
       q_created_at := ""; q_retry_count := 0 |}
    (sync_queue st !! 1).

Definition no_updates : PartialFormData :=
  {| u_amount := None; u_category := None; u_date := None; u_notes := None;
     u_receipt_url := None |}.

(** A form whose amount field holds no number. *)
Definition unpriced : ExpenseFormData :=
  {| f_amount := "abc"; f_category := "Food";
     f_date := "2024-05-01T00:00:00.000Z"; f_notes := "";
     f_receipt_url := None |}.

(** An edit that puts a text that is no number into the amount field. *)
Definition garbled_amount : PartialFormData :=
  {| u_amount := Some "abc"; u_category := None; u_date := None;
     u_notes := None; u_receipt_url := None |}.

(** The list the expenses context shows for [one_expense_store]. *)
Definition listed_lunch : list ListedExpense :=
  FromStore <$> (map_to_list (expenses one_expense_store)).*2.

(** A record whose date the remote store holds as a text that is no date. *)
Definition undated_elsewhere : Expense :=
  {| r_id := "e2"; r_user_id := "user-1"; r_amount := "8.00";
     r_category := "Food"; r_date := "yesterday";
     r_notes := None; r_receipt_url := None;
     r_created_at := "2024-05-01T10:00:00.000Z";
     r_updated_at := "2024-05-02T08:00:00.000Z" |}.

(** That record pulled into the local table, then edited locally. *)
Definition undated_store : Store :=
  run_locals [OpUpdate "e2" recategorise]
    (upsertExpenseFromRemote undated_elsewhere empty_store).2.

(** Random draws for [generateUUID]. *)
Definition sample_draws (n : nat) : Z := (Z.of_nat n * 7) mod 16.

Definition sample_uuid : string := "123e4567-e89b-42d3-a456-426614174000".

End Runs.

(** ** Properties of the local store *)

Section LocalStore.
Context `{Platform}.

Implicit Types (st : Store) (i : string) (op : Operation) (q : QueueItem).

Lemma find_same_target_None i op (l : list QueueItem) :
  find (same_target i op) l = None ↔
  filter (λ q, same_target i op q = true) l = [].
Proof.
  induction l as [|q l IH]; simpl; [done|].
  rewrite filter_cons. destruct (same_target i op q) eqn:E.
  - rewrite decide_True by done. split; discriminate.
  - rewrite decide_False by discriminate. exact IH.
Qed.

Lemma find_same_target_Some i op (l : list QueueItem) q :
  find (same_target i op) l = Some q →
  q ∈ l ∧ q_expense_id q = i ∧ q_operation q = op.
Proof.
  intros Hf. apply find_some in Hf as [Hin Ht].
  apply list_elem_of_In in Hin. unfold same_target in Ht.
  apply bool_decide_eq_true in Ht. tauto.
Qed.

Lemma same_target_true i op q :
  same_target i op q = true ↔ q_expense_id q = i ∧ q_operation q = op.
Proof. unfold same_target. apply bool_decide_eq_true. Qed.

Lemma has_entry_find i op st :
  has_entry i op st ↔ find (same_target i op) (sync_queue st) ≠ None.
Proof.
  unfold has_entry. rewrite Exists_exists. split.
  - intros (q & Hin & Hq) Hnone.
    pose proof (find_none _ _ Hnone q) as Hx.
    apply same_target_true in Hq. apply list_elem_of_In in Hin.
    specialize (Hx Hin). congruence.
  - destruct (find _ _) as [q|] eqn:E; [|done]. intros _.
    apply find_same_target_Some in E. exists q. tauto.
Qed.

Lemma addToSyncQueue_expenses i op d st :
  expenses (addToSyncQueue i op d st) = expenses st.
Proof. unfold addToSyncQueue. by destruct (find _ _). Qed.

Lemma addToSyncQueue_has_entry i op d st :
  has_entry i op (addToSyncQueue i op d st).
Proof.
  unfold addToSyncQueue.
  destruct (find _ _) as [q|] eqn:E.
  - apply has_entry_find. congruence.
  - unfold has_entry. simpl. apply Exists_app. right.
    apply Exists_cons_hd. done.
Qed.

Lemma addToSyncQueue_duplicate i op d st :
  has_entry i op st → addToSyncQueue i op d st = st.
Proof.
  intros Hh. apply has_entry_find in Hh. unfold addToSyncQueue.
  by destruct (find _ _).
Qed.

Lemma addToSyncQueue_keeps i op d st q :
  q ∈ sync_queue st → q ∈ sync_queue (addToSyncQueue i op d st).
Proof.
  unfold addToSyncQueue. destruct (find _ _); [done|]. simpl.
  intros. apply elem_of_app. by left.
Qed.


(** C9, as the code has it. [deleteAllUserExpenses] removes every expense
    row of the owner and no other row; the sync queue, which has no owner
    column, is left exactly as it was. *)
Theorem deleteAllUserExpenses_rows_only (userId : string) st :
  let st' := (deleteAllUserExpenses userId st).2 in
  (∀ i e, expenses st' !! i = Some e → user_id e ≠ userId) ∧
  (∀ i e, expenses st !! i = Some e → user_id e ≠ userId →
          expenses st' !! i = Some e) ∧
  (∀ i, expenses st !! i = None → expenses st' !! i = None) ∧
  sync_queue st' = sync_queue st ∧
  (deleteAllUserExpenses userId st).1 = None.
Proof.
  simpl. repeat split.
  - intros i e He. apply map_lookup_filter_Some in He. tauto.
  - intros i e He Hne. apply map_lookup_filter_Some. done.
  - intros i He. apply map_lookup_filter_None. left. done.
Qed.

(** C2, as the code has it. For an id that is not in the [expenses] table
    and an update with at least one field, [updateExpense] raises nothing:
    it returns [{ data: null, error: null }], leaves the table as it was, and
    the queue afterwards holds an [update] row for that id (appended when
    none was there). *)
Theorem updateExpense_unknown_id i (updates : PartialFormData) st :
  expenses st !! i = None →
  provided_fields updates ≠ 0 →
  let res := updateExpense i updates st in
  data res.1 = None ∧
  error res.1 = None ∧
  expenses res.2 = expenses st ∧
  has_entry i Update res.2 ∧
  (¬ has_entry i Update st →
   ∃ q, sync_queue res.2 = sync_queue st ++ [q] ∧
        q_expense_id q = i ∧ q_operation q = Update ∧
        q_retry_count q = 0%Z).
Proof.
  intros Hnone Hfields. unfold updateExpense, update_violates.
  rewrite bool_decide_eq_false_2 by lia. simpl. rewrite Hnone. simpl.
  assert (Halter : ∀ f, alter f i (expenses (tick st)) = expenses st).
  { intros f. simpl. apply map_eq. intros j. rewrite lookup_alter.
    case_decide; [subst; by rewrite Hnone|done]. }
  rewrite addToSyncQueue_expenses. simpl. rewrite Halter.
  repeat split; try done.
  - apply addToSyncQueue_has_entry.
  - intros Hno. unfold addToSyncQueue.
    destruct (find _ _) as [q|] eqn:E.
    + exfalso. apply Hno. apply has_entry_find. simpl in E. congruence.
    + simpl. eexists. split; [reflexivity|]. done.
Qed.

Lemma addToSyncQueue_queue i op d st :
  ∃ l, sync_queue (addToSyncQueue i op d st) = sync_queue st ++ l ∧
       ∀ q, q ∈ l → q_expense_id q = i ∧ q_operation q = op.
Proof.
  unfold addToSyncQueue. destruct (find _ _) as [q0|].
  - exists []. rewrite app_nil_r. split; [done|]. by intros q ?%elem_of_nil.
  - eexists [_]. simpl. split; [done|].
    intros q ->%list_elem_of_singleton. done.
Qed.

Lemma queue_dedup_ext st1 st2 :
  sync_queue st1 = sync_queue st2 → queue_dedup st1 → queue_dedup st2.
Proof. unfold queue_dedup, entries_for. by intros <-. Qed.

Lemma addToSyncQueue_dedup i op d st :
  queue_dedup st → queue_dedup (addToSyncQueue i op d st).
Proof.
  intros Hd j op'. unfold entries_for, addToSyncQueue.
  destruct (find _ _) eqn:E; [apply Hd|]. simpl.
  rewrite filter_app, length_app, filter_cons, filter_nil.
  case_decide as Hsame; simpl; [|specialize (Hd j op'); unfold entries_for in Hd; lia].
  apply same_target_true in Hsame as [<- <-]. simpl in *.
  apply find_same_target_None in E. rewrite E. simpl. lia.
Qed.

Lemma run_local_dedup st (o : LocalOp) :
  queue_dedup st → queue_dedup (run_local st o).
Proof.
  intros Hd. destruct o as [newId expense userId|i updates|i]; simpl.
  - unfold addExpense. destruct (insert_violates _ _); simpl.
    + by eapply queue_dedup_ext; [|exact Hd].
    + apply addToSyncQueue_dedup. by eapply queue_dedup_ext; [|exact Hd].
  - unfold updateExpense. case_bool_decide; simpl.
    + by eapply queue_dedup_ext; [|exact Hd].
    + destruct (update_violates _ _ _); simpl.
      * by eapply queue_dedup_ext; [|exact Hd].
      * apply addToSyncQueue_dedup. by eapply queue_dedup_ext; [|exact Hd].
  - unfold run_steps. simpl.
    eapply queue_dedup_ext; [|apply (addToSyncQueue_dedup i Delete None), Hd].
    done.
Qed.

Lemma run_local_keeps st (o : LocalOp) q :
  q ∈ sync_queue st → q ∈ sync_queue (run_local st o).
Proof.
  intros Hq. destruct o as [newId expense userId|i updates|i]; simpl.
  - unfold addExpense. destruct (insert_violates _ _); simpl; [done|].
    by apply addToSyncQueue_keeps.
  - unfold updateExpense. case_bool_decide; simpl; [done|].
    destruct (update_violates _ _ _); simpl; [done|].
    by apply addToSyncQueue_keeps.
  - unfold run_steps. simpl. by apply addToSyncQueue_keeps.
Qed.

(** C5. After any sequence of [addExpense], [updateExpense] and
    [deleteExpense] calls on a store whose queue has at most one row per
    [(expense_id, operation)] pair (such as the empty store), the queue still
    has at most one row per pair; every row that was queued stays in place;
    and an enqueue attempt for a pair that already has a row changes
    nothing, so that a repeated [updateExpense] or [deleteExpense] leaves the
    queue as it is and reports no error for the dropped duplicate (an
    [updateExpense] reports an error only when its amount is NaN, which the
    table refuses). *)
Theorem sync_queue_one_entry_per_operation (ops : list LocalOp) st :
  queue_dedup st →
  queue_dedup (run_locals ops st) ∧
  (∀ q, q ∈ sync_queue st → q ∈ sync_queue (run_locals ops st)) ∧
  (∀ i op d, has_entry i op (run_locals ops st) →
     addToSyncQueue i op d (run_locals ops st) = run_locals ops st) ∧
  (∀ i updates, has_entry i Update (run_locals ops st) →
     provided_fields updates ≠ 0 →
     sync_queue (updateExpense i updates (run_locals ops st)).2 =
       sync_queue (run_locals ops st) ∧
     (amount_is_NaN updates = false →
      error (updateExpense i updates (run_locals ops st)).1 = None)) ∧
  (∀ i, has_entry i Delete (run_locals ops st) →
     sync_queue (deleteExpense i (run_locals ops st)).2 =
       sync_queue (run_locals ops st) ∧
     (deleteExpense i (run_locals ops st)).1 = None) ∧
  queue_dedup (run_locals ops empty_store).
Proof.
  intros Hd. split; [|split; [|split; [|split; [|split]]]].
  - revert st Hd. induction ops as [|o ops IH]; intros st Hd; [done|].
    simpl. apply IH. by apply run_local_dedup.
  - revert st Hd. induction ops as [|o ops IH]; intros st Hd q Hq; [done|].
    simpl. apply IH; [by apply run_local_dedup|]. by apply run_local_keeps.
  - intros i op d. apply addToSyncQueue_duplicate.
  - intros i updates Hh Hf. unfold updateExpense, update_violates.
    rewrite bool_decide_eq_false_2 by lia. simpl.
    destruct (expenses (run_locals ops st) !! i), (amount_is_NaN updates);
      simpl; rewrite ?addToSyncQueue_duplicate by done; done.
  - intros i Hh. unfold deleteExpense, run_steps. simpl.
    by rewrite addToSyncQueue_duplicate.
  - assert (He : queue_dedup empty_store) by (intros i op; simpl; lia).
    clear Hd. revert He. generalize empty_store.
    induction ops as [|o ops IH]; intros s Hs; [done|].
    simpl. apply IH. by apply run_local_dedup.
Qed.

(** C6. [deleteExpense] runs two statements: it enqueues the [delete] row and
    then removes the expense row. Stopped after any [k ≥ 1] of them, the
    queue holds a [delete] row for the id; after exactly the first, the
    [expenses] table is still what it was; and at no point is the expense row
    missing, having been there at the start, while the queue has no [delete]
    row for it. Run to the end, the row is gone and the [delete] row is
    queued. *)
Theorem deleteExpense_enqueues_before_removing i st (k : nat) :
  1 ≤ k →
  let interrupted := run_steps (take k (deleteExpense_steps i)) st in
  has_entry i Delete interrupted ∧
  (k = 1 → expenses interrupted = expenses st) ∧
  (∀ n, let s := run_steps (take n (deleteExpense_steps i)) st in
        expenses s !! i = None →
        expenses st !! i = None ∨ has_entry i Delete s) ∧
  (deleteExpense i st).2 = run_steps (take 2 (deleteExpense_steps i)) st ∧
  expenses (deleteExpense i st).2 !! i = None ∧
  has_entry i Delete (deleteExpense i st).2.
Proof.
  intros Hk. simpl.
  assert (Hq : has_entry i Delete (addToSyncQueue i Delete None st))
    by apply addToSyncQueue_has_entry.
  assert (Hq2 : ∀ n, has_entry i Delete
            (run_steps (take (S (S n)) (deleteExpense_steps i)) st)).
  { intros n. simpl. rewrite take_nil. exact Hq. }
  repeat split.
  - destruct k as [|[|k]]; [lia|exact Hq|apply Hq2].
  - intros ->. simpl. apply addToSyncQueue_expenses.
  - intros [|[|n]]; [simpl; tauto|right; exact Hq|right; apply Hq2].
  - unfold run_steps. simpl. apply lookup_delete_eq.
  - exact Hq.
Qed.

Lemma sync_consistent_step st st' i :
  sync_consistent st →
  (∀ j, j ≠ i → expenses st' !! j = expenses st !! j) →
  match expenses st' !! i with
  | Some e => synced e = 0%Z
  | None => True
  end →
  (∀ q, q ∈ sync_queue st' → q ∈ sync_queue st ∨ q_expense_id q = i) →
  sync_consistent st'.
Proof.
  intros [HA HB] Hother Hi Hq. split.
  - intros j e He Hs Href.
    destruct (decide (j = i)) as [->|Hne].
    { rewrite He in Hi. lia. }
    rewrite Hother in He by done.
    apply (HA j e He Hs). unfold referenced in *.
    apply Exists_exists in Href as (q & Hin & Hj).
    apply Exists_exists. exists q. split; [|done].
    destruct (Hq q Hin); [done|congruence].
  - intros q Hin.
    destruct (decide (q_expense_id q = i)) as [->|Hne]; [exact Hi|].
    rewrite Hother by done. apply HB.
    destruct (Hq q Hin); [done|congruence].
Qed.

Lemma sync_consistent_ext st1 st2 :
  expenses st1 = expenses st2 → sync_queue st1 = sync_queue st2 →
  sync_consistent st1 → sync_consistent st2.
Proof.
  unfold sync_consistent, referenced. intros <- <-. done.
Qed.

Lemma addToSyncQueue_from i op d st q :
  q ∈ sync_queue (addToSyncQueue i op d st) →
  q ∈ sync_queue st ∨ q_expense_id q = i.
Proof.
  destruct (addToSyncQueue_queue i op d st) as (l & -> & Hl).
  intros [?|Hin]%elem_of_app; [by left|right]. by apply Hl.
Qed.

Lemma run_local_consistent st (o : LocalOp) :
  sync_consistent st → sync_consistent (run_local st o).
Proof.
  intros Hc. destruct o as [newId expense userId|i updates|i]; simpl.
  - unfold addExpense. destruct (insert_violates _ _) eqn:E; simpl.
    + by eapply sync_consistent_ext; [| |exact Hc].
    + apply (sync_consistent_step st _ newId Hc).
      * intros j Hj. rewrite addToSyncQueue_expenses. simpl.
        by rewrite lookup_insert_ne.
      * rewrite addToSyncQueue_expenses. simpl.
        by rewrite lookup_insert_eq.
      * intros q Hq. by apply addToSyncQueue_from in Hq.
  - unfold updateExpense. case_bool_decide; simpl.
    + by eapply sync_consistent_ext; [| |exact Hc].
    + destruct (update_violates _ _ _); simpl;
        [by eapply sync_consistent_ext; [| |exact Hc]|].
      apply (sync_consistent_step st _ i Hc).
      * intros j Hj. rewrite addToSyncQueue_expenses. simpl.
        by rewrite lookup_alter_ne.
      * rewrite addToSyncQueue_expenses. simpl. rewrite lookup_alter_eq.
        by destruct (expenses st !! i).
      * intros q Hq. by apply addToSyncQueue_from in Hq.
  - unfold run_steps. simpl. apply (sync_consistent_step st _ i Hc); simpl.
    + intros j Hj. rewrite addToSyncQueue_expenses. by rewrite lookup_delete_ne.
    + by rewrite lookup_delete_eq.
    + intros q Hq. by apply addToSyncQueue_from in Hq.
Qed.

(** C8, as the code has it. The local-store mutations ([addExpense],
    [updateExpense], [deleteExpense]) keep the invariant: started in a store
    where every synced row has no queue row referencing it and every
    referenced row is unsynced or gone (such as the empty store), any
    sequence of them ends in such a store. *)
Theorem local_mutations_keep_sync_consistent (ops : list LocalOp) st :
  sync_consistent st → sync_consistent (run_locals ops st).
Proof.
  revert st. induction ops as [|o ops IH]; intros st Hc; [done|].
  simpl. apply IH. by apply run_local_consistent.
Qed.

Lemma insert_by_created_at_Permutation q (l : list QueueItem) :
  insert_by_created_at q l ≡ₚ q :: l.
Proof.
  induction l as [|y l IH]; simpl; [done|].
  case_decide; [done|]. rewrite IH. apply Permutation_swap.
Qed.

Lemma getSyncQueue_Permutation st : getSyncQueue st ≡ₚ sync_queue st.
Proof.
  unfold getSyncQueue. induction (sync_queue st) as [|q l IH]; simpl; [done|].
  by rewrite insert_by_created_at_Permutation, IH.
Qed.

Lemma insert_by_created_at_Sorted q (l : list QueueItem) :
  Sorted created_at_le l → Sorted created_at_le (insert_by_created_at q l).
Proof.
  induction l as [|y l IH]; simpl; intros Hs.
  - by repeat constructor.
  - case_decide as Hle.
    + constructor; [done|]. by constructor.
    + apply Sorted_inv in Hs as [Hs Hhd]. constructor; [by apply IH|].
      assert (Hyq : created_at_le y q).
      { unfold created_at_le in *.
        destruct (String.le_total (q_created_at q) (q_created_at y)); done. }
      destruct l as [|z l]; simpl; [by constructor|].
      case_decide; constructor; [done|]. by apply HdRel_inv in Hhd.
Qed.

Lemma getSyncQueue_Sorted st : Sorted created_at_le (getSyncQueue st).
Proof.
  unfold getSyncQueue. induction (sync_queue st) as [|q l IH]; simpl.
  - constructor.
  - by apply insert_by_created_at_Sorted.
Qed.

Lemma insert_by_created_at_stable q (l : list QueueItem) (stamp : string) :
  filter (λ x, q_created_at x = stamp) (insert_by_created_at q l) =
  filter (λ x, q_created_at x = stamp) (q :: l).
Proof.
  induction l as [|y l IH]; simpl; [done|].
  case_decide as Hle; [done|].
  rewrite (filter_cons _ y), IH, !filter_cons.
  destruct (decide (q_created_at y = stamp)) as [Hy|Hy]; [|done].
  destruct (decide (q_created_at q = stamp)) as [Hq|Hq]; [|done].
  exfalso. apply Hle. unfold created_at_le. by rewrite Hy, Hq.
Qed.

Lemma getSyncQueue_stable st (stamp : string) :
  filter (λ x, q_created_at x = stamp) (getSyncQueue st) =
  filter (λ x, q_created_at x = stamp) (sync_queue st).
Proof.
  unfold getSyncQueue. induction (sync_queue st) as [|q l IH]; simpl; [done|].
  by rewrite insert_by_created_at_stable, !filter_cons, IH.
Qed.

End LocalStore.

(** ** Properties of the sync service *)

Section SyncService.
Context `{Platform} {R : Type} `{!Remote R}.

Implicit Types (st : Store) (s : @PushState _ R) (item q : QueueItem).

Create HintDb push discriminated.
Hint Constructors queue_effect : push.

Ltac push_unfold :=
  unfold push_item, push_attempt, call_remote, getExpenseById, count_success,
    push_error, with_store, markExpenseAsSynced, markExpenseSyncFailed,
    removeFromSyncQueue, incrementSyncRetryCount, with_expenses,
    with_sync_queue, tick in *;
  simpl in *.

Ltac push_cases :=
  push_unfold; repeat (case_match; simpl in *; simplify_eq; try done).

Lemma push_item_queue_effect userId s item :
  queue_effect item (sync_queue (p_store s))
    (sync_queue (p_store (push_item userId s item))).
Proof. push_cases; auto with push. Qed.

Lemma push_item_skips userId s item :
  (MAX_RETRIES ≤ q_retry_count item)%Z → push_item userId s item = s.
Proof. intros Hr. unfold push_item. by rewrite bool_decide_eq_true_2. Qed.

Lemma push_item_lookup_None userId s item i :
  expenses (p_store s) !! i = None →
  expenses (p_store (push_item userId s item)) !! i = None.
Proof.
  intros Hn. push_cases;
    rewrite ?lookup_alter_None; done.
Qed.


Lemma queue_effect_no_rowid item (before after : list QueueItem) (n : Z) :
  queue_effect item before after →
  (∀ q, q ∈ before → q_id q ≠ n) → ∀ q, q ∈ after → q_id q ≠ n.
Proof.
  intros [] Hb q Hq; [by apply Hb| |].
  - apply list_elem_of_filter in Hq as [_ Hq]. by apply Hb.
  - apply list_elem_of_fmap in Hq as (q0 & -> & Hq0).
    unfold bump_retry. case_bool_decide; simpl; by apply Hb.
Qed.

Lemma push_loop_no_rowid userId (l : list QueueItem) s (n : Z) :
  (∀ q, q ∈ sync_queue (p_store s) → q_id q ≠ n) →
  ∀ q, q ∈ sync_queue (p_store (push_loop userId l s)) → q_id q ≠ n.
Proof.
  revert s. induction l as [|x l IH]; intros s Hs; [done|].
  simpl. apply IH.
  eapply queue_effect_no_rowid; [apply push_item_queue_effect|done].
Qed.

Lemma push_item_missing userId s item :
  q_operation item ≠ Delete →
  (q_retry_count item < MAX_RETRIES)%Z →
  expenses (p_store s) !! q_expense_id item = None →
  push_item userId s item =
  with_store (removeFromSyncQueue (q_id item) (p_store s)) s.
Proof.
  intros Hop Hr Hn. unfold push_item, push_attempt, getExpenseById.
  rewrite bool_decide_eq_false_2 by lia. simpl. rewrite Hn.
  by destruct (q_operation item).
Qed.

Lemma push_loop_removes_missing userId (l : list QueueItem) s item :
  item ∈ l →
  q_operation item ≠ Delete →
  (q_retry_count item < MAX_RETRIES)%Z →
  expenses (p_store s) !! q_expense_id item = None →
  ∀ q, q ∈ sync_queue (p_store (push_loop userId l s)) → q_id q ≠ q_id item.
Proof.
  intros Hin Hop Hr. revert s.
  induction l as [|x l IH]; intros s Hn; [by apply elem_of_nil in Hin|].
  simpl. apply elem_of_cons in Hin as [<-|Hin].
  - apply push_loop_no_rowid. rewrite push_item_missing by done. simpl.
    intros q Hq. by apply list_elem_of_filter in Hq as [? _].
  - apply IH; [done|]. by apply push_item_lookup_None.
Qed.

Lemma queue_effect_keeps item (before after : list QueueItem) e :
  queue_effect item before after →
  q_id item ≠ q_id e → e ∈ before → e ∈ after.
Proof.
  intros [] Hne He; [done| |].
  - apply list_elem_of_filter. split; [congruence|done].
  - apply list_elem_of_fmap. exists e. split; [|done].
    unfold bump_retry. by rewrite bool_decide_eq_false_2 by congruence.
Qed.

Lemma push_loop_keeps_ceiling userId (l : list QueueItem) s e :
  e ∈ sync_queue (p_store s) →
  (∀ x, x ∈ l → q_id x = q_id e → (MAX_RETRIES ≤ q_retry_count x)%Z) →
  e ∈ sync_queue (p_store (push_loop userId l s)).
Proof.
  revert s. induction l as [|x l IH]; intros s He Hl; [done|].
  simpl. apply IH; [|intros y Hy; apply Hl; by right].
  destruct (decide (q_id x = q_id e)) as [Heq|Hne].
  - rewrite push_item_skips; [done|]. apply Hl; [by left|done].
  - eapply queue_effect_keeps; [apply push_item_queue_effect|done|done].
Qed.

Lemma remove_rowids_sublist (ids : list Z) (acc : nat * Store) :
  let out := foldl (λ a qid, (S a.1, removeFromSyncQueue qid a.2)) acc ids in
  sync_queue out.2 `sublist_of` sync_queue acc.2 ∧
  expenses out.2 = expenses acc.2.
Proof.
  revert acc. induction ids as [|n ids IH]; intros acc; simpl; [done|].
  destruct (IH (S acc.1, removeFromSyncQueue n acc.2)) as [Hs He].
  split; [|exact He]. etrans; [exact Hs|]. simpl. apply sublist_filter.
Qed.

Lemma remove_groups_sublist (groups : list (string * Operation))
    (acc : nat * Store) :
  let out := foldl (λ a k, remove_duplicates_of k a) acc groups in
  sync_queue out.2 `sublist_of` sync_queue acc.2 ∧
  expenses out.2 = expenses acc.2.
Proof.
  revert acc. induction groups as [|k groups IH]; intros acc; simpl; [done|].
  destruct (IH (remove_duplicates_of k acc)) as [Hs He].
  destruct (remove_rowids_sublist
    (tail (merge_sort Z.le
       (q_id <$> filter (λ x, same_target k.1 k.2 x = true) (sync_queue acc.2))))
    acc) as [Hs' He'].
  fold (remove_duplicates_of k acc) in Hs', He'.
  split; [by etrans|congruence].
Qed.

Lemma removeDuplicateSyncQueueEntries_sublist st :
  sync_queue (removeDuplicateSyncQueueEntries st).2 `sublist_of` sync_queue st ∧
  expenses (removeDuplicateSyncQueueEntries st).2 = expenses st.
Proof.
  apply (remove_groups_sublist (duplicate_groups (sync_queue st)) (0, st)).
Qed.

Lemma removeDuplicateSyncQueueEntries_dedup st :
  queue_dedup st → removeDuplicateSyncQueueEntries st = (0, st).
Proof.
  intros Hd. unfold removeDuplicateSyncQueueEntries.
  assert (Hg : duplicate_groups (sync_queue st) = []); [|by rewrite Hg].
  apply elem_of_nil_inv. intros k Hk. unfold duplicate_groups in Hk.
  apply list_elem_of_filter in Hk as [Hk _].
  specialize (Hd k.1 k.2). unfold entries_for in Hd. lia.
Qed.

Lemma queue_ids_unique_inj (l : list QueueItem) x y :
  NoDup (q_id <$> l) → x ∈ l → y ∈ l → q_id x = q_id y → x = y.
Proof.
  induction l as [|z l IH]; simpl; [by intros _ ?%elem_of_nil|].
  intros [Hz Hnd]%NoDup_cons [->|Hx]%elem_of_cons [->|Hy]%elem_of_cons Heq;
    [done| | |by apply IH].
  - exfalso. apply Hz. rewrite Heq. by apply list_elem_of_fmap_2.
  - exfalso. apply Hz. rewrite <- Heq. by apply list_elem_of_fmap_2.
Qed.

(** C1, as the code has it. A sync cycle started while NetInfo reports the
    device offline does no work: it pushes nothing, pulls nothing, makes no
    remote call and leaves the store and the remote store as they were. It
    reports that outcome as a failure: [success] is [false], the error list is
    ["Device is offline"], and the sync context shows the status [error]. *)
Theorem syncExpenses_offline (net : NetInfoState) (userId : string)
    st (r : R) :
  isOnline net = false →
  let o := syncExpenses net userId st r in
  pushed (o_result o) = 0 ∧
  pulled (o_result o) = 0 ∧
  o_store o = st ∧
  o_remote o = r ∧
  o_calls o = [] ∧
  success (o_result o) = false ∧
  errors (o_result o) = ["Device is offline"] ∧
  status_of_result (o_result o) = StatusError.
Proof. intros Hoff. unfold syncExpenses. rewrite Hoff. simpl. tauto. Qed.

(** C3, as the code has it. For every queue state, [getSyncQueue] returns
    every row of the queue, those at or above the retry ceiling included,
    ordered by [created_at] ascending, rows with the same stamp in the order
    of the table. The ceiling of 3 is applied by the push loop: it skips a
    row whose [retry_count] is 3 or more, so a push leaves such a row in the
    queue (given distinct rowids, for a row the duplicate clean-up keeps).
    The row goes only when [clearFailedSyncItems] or [clearSyncQueue]
    purges it. *)
Theorem getSyncQueue_lists_all_push_skips_ceiling (userId : string)
    st (r : R) :
  getSyncQueue st ≡ₚ sync_queue st ∧
  Sorted created_at_le (getSyncQueue st) ∧
  (∀ stamp, filter (λ q, q_created_at q = stamp) (getSyncQueue st) =
            filter (λ q, q_created_at q = stamp) (sync_queue st)) ∧
  (∀ e, e ∈ sync_queue st → (MAX_RETRIES ≤ q_retry_count e)%Z →
     e ∈ getSyncQueue st ∧
     (∀ s, push_item userId s e = s) ∧
     (e ∉ sync_queue (clearFailedSyncItems MAX_RETRIES st).2) ∧
     (e ∉ sync_queue (clearSyncQueue st))) ∧
  (queue_ids_unique st →
   ∀ e, e ∈ sync_queue (removeDuplicateSyncQueueEntries st).2 →
     (MAX_RETRIES ≤ q_retry_count e)%Z →
     e ∈ sync_queue (p_store (pushToRemote userId st r))).
Proof.
  destruct (removeDuplicateSyncQueueEntries_sublist st) as [Hsub _].
  split; [apply getSyncQueue_Permutation|].
  split; [apply getSyncQueue_Sorted|].
  split; [intros stamp; apply getSyncQueue_stable|].
  split.
  - intros e Hin Hr. split; [by rewrite getSyncQueue_Permutation|].
    split; [intros s; by apply push_item_skips|]. split.
    + simpl. intros [Hlt _]%list_elem_of_filter. lia.
    + simpl. apply not_elem_of_nil.
  - intros Hu e He Hr.
    unfold pushToRemote. apply push_loop_keeps_ceiling; [done|].
    intros x Hx Heq. rewrite getSyncQueue_Permutation in Hx.
    assert (x = e) as ->; [|done].
    eapply queue_ids_unique_inj; [|exact Hx|exact He|exact Heq].
    apply (sublist_NoDup _ (q_id <$> sync_queue st)); [exact Hu|by apply fmap_sublist].
Qed.

(** C7. When the push loop sends a [create] row (one below the retry ceiling
    whose expense is in the local table, [expenseData] being the data it
    prepares from that row) and the remote insert answers with a uniqueness
    conflict (code 23505, or a message naming a duplicate key or a unique
    constraint), the iteration ends as a success: the expense row is
    marked synced with its error cleared, the queue row is deleted while
    every other queue row is left as it was (no retry count moves), the
    success count grows by one and the error list does not grow. *)
Theorem push_create_conflict_is_success (userId : string) s item
    (localExpense : LocalExpense) (expenseData : ExpenseFormData)
    (conflict : RemoteError) (r1 : R) :
  q_operation item = Create →
  (q_retry_count item < MAX_RETRIES)%Z →
  expenses (p_store s) !! q_expense_id item = Some localExpense →
  expenseData_of localExpense = Some expenseData →
  remote_addExpense expenseData userId
    (Some (q_expense_id item)) (p_remote s) = (Some conflict, r1) →
  isDuplicate conflict = true →
  let s' := push_item userId s item in
  successCount s' = S (successCount s) ∧
  p_errors s' = p_errors s ∧
  sync_queue (p_store s') =
    filter (λ q, q_id q ≠ q_id item) (sync_queue (p_store s)) ∧
  (item ∉ sync_queue (p_store s')) ∧
  p_remote s' = r1 ∧
  p_calls s' = p_calls s ++
    [CallAddExpense expenseData userId (Some (q_expense_id item))] ∧
  ∃ row,
    expenses (p_store s') !! q_expense_id item = Some row ∧
    synced row = 1%Z ∧
    sync_error row = None ∧
    last_sync_at row = Some (now (p_store s)).
Proof.
  intros Hop Hr Hrow Hdata Hadd Hdup.
  unfold push_item, push_attempt, getExpenseById, call_remote.
  rewrite bool_decide_eq_false_2 by lia. simpl.
  rewrite Hop, Hrow. simpl. rewrite Hdata. simpl. rewrite Hadd, Hdup. simpl.
  repeat split; try done.
  - intros [Hne _]%list_elem_of_filter. done.
  - rewrite lookup_alter_eq, Hrow. simpl. eexists. split; [done|]. done.
Qed.

(** C10, as the code has it. In the push loop, a [create] or [update] row
    below the retry ceiling whose expense is not in the local table is
    deleted from the queue and nothing else happens: no remote call, no
    change to the remote store, to any other queue row or to the expenses,
    no error recorded, no success counted. When the push ends, no row with
    that rowid is left. *)
Theorem push_drops_entry_of_missing_expense (userId : string) st (r : R)
    s item :
  q_operation item ≠ Delete →
  (q_retry_count item < MAX_RETRIES)%Z →
  expenses (p_store s) !! q_expense_id item = None →
  let s' := push_item userId s item in
  sync_queue (p_store s') =
    filter (λ q, q_id q ≠ q_id item) (sync_queue (p_store s)) ∧
  (item ∉ sync_queue (p_store s')) ∧
  expenses (p_store s') = expenses (p_store s) ∧
  p_calls s' = p_calls s ∧
  p_remote s' = p_remote s ∧
  p_errors s' = p_errors s ∧
  successCount s' = successCount s ∧
  (item ∈ sync_queue (removeDuplicateSyncQueueEntries st).2 →
   expenses st !! q_expense_id item = None →
   ∀ q, q ∈ sync_queue (p_store (pushToRemote userId st r)) →
        q_id q ≠ q_id item).
Proof.
  intros Hop Hr Hn. simpl. rewrite push_item_missing by done. simpl.
  repeat split; try done.
  - intros [Hne _]%list_elem_of_filter. done.
  - intros Hin Hst. unfold pushToRemote.
    apply push_loop_removes_missing; try done.
    + by rewrite getSyncQueue_Permutation.
    + simpl. destruct (removeDuplicateSyncQueueEntries_sublist st) as [_ ->].
      done.
Qed.

End SyncService.

(** ** Further properties of the local store *)

Section LocalStoreMore.
Context `{Platform}.

Implicit Types (st : Store) (i : string) (op : Operation) (q : QueueItem).

Lemma elem_of_rows_where (P : LocalExpense → Prop) `{!∀ e, Decision (P e)}
    st (e : LocalExpense) :
  e ∈ rows_where P st ↔ ∃ i, expenses st !! i = Some e ∧ P e.
Proof.
  unfold rows_where. rewrite list_elem_of_fmap. split.
  - intros ([i e'] & -> & Hin). apply elem_of_map_to_list in Hin.
    apply map_lookup_filter_Some in Hin as [? ?]. by exists i.
  - intros (i & He & HP). exists (i, e). split; [done|].
    apply elem_of_map_to_list, map_lookup_filter_Some. done.
Qed.

Lemma length_rows_where (P : LocalExpense → Prop) `{!∀ e, Decision (P e)} st :
  length (rows_where P st) = size (filter (λ kv, P kv.2) (expenses st)).
Proof. unfold rows_where. by rewrite length_fmap, length_map_to_list. Qed.


Global Instance newest_first_total : Total newest_first.
Proof.
  intros a b. unfold newest_first.
  rewrite (String.compare_antisym (date a) (date b)).
  destruct (String.compare (date b) (date a)) eqn:E; simpl; auto.
  apply String.le_total.
Qed.

(** X1. [addExpense] with an id the table does not hold and an amount that
    parses to a number stores the row and returns it: a lookup by that id
    gives the returned row, which carries the owner, the parsed amount, the
    category, date, notes and receipt of the form (empty texts as NULL),
    [synced = 0], both stamps equal to the current time and no sync error; a
    [create] row for the id is queued, every other expense is left as it
    was, and [getUnsyncedExpenses] of the owner lists the row. *)
Theorem addExpense_stores_unsynced_row (newId : string)
    (expense : ExpenseFormData) (userId : string) st :
  expenses st !! newId = None →
  isNaN (parseFloat (f_amount expense)) = false →
  let res := addExpense newId expense userId st in
  ∃ row,
    res.1 = {| data := Some row; error := None |} ∧
    data (getExpenseById newId res.2) = Some row ∧
    id row = newId ∧ user_id row = userId ∧ synced row = 0%Z ∧
    created_at row = now st ∧ updated_at row = now st ∧
    sync_error row = None ∧ last_sync_at row = None ∧
    amount row = parseFloat (f_amount expense) ∧
    category row = f_category expense ∧ date row = f_date expense ∧
    notes row = string_or_null (f_notes expense) ∧
    receipt_url row = option_or_null (f_receipt_url expense) ∧
    has_entry newId Create res.2 ∧
    (∀ j, j ≠ newId → expenses res.2 !! j = expenses st !! j) ∧
    row ∈ getUnsyncedExpenses userId res.2.
Proof.
  intros Hfresh Hnum. unfold addExpense, insert_violates. simpl.
  rewrite Hnum, Hfresh. simpl.
  eexists. split; [reflexivity|].
  rewrite addToSyncQueue_expenses. simpl.
  rewrite lookup_insert_eq.
  repeat split; try done.
  - apply addToSyncQueue_has_entry.
  - intros j Hj. by rewrite lookup_insert_ne.
  - apply elem_of_rows_where. exists newId.
    rewrite addToSyncQueue_expenses. simpl. by rewrite lookup_insert_eq.
Qed.

(** X2. [addExpense] is refused by the table when the amount parses to NaN
    (the NOT NULL of [amount]) or, the amount being a number, when the id is
    already there (the primary key). It then returns no data and the message
    of the driver's error, or "Failed to add expense" when what the driver
    throws is not an [Error], and leaves the expenses and the queue as they
    were: no [create] row is queued for the failed insert. *)
Theorem addExpense_refused_changes_nothing (newId : string)
    (expense : ExpenseFormData) (userId : string) st :
  is_Some (expenses st !! newId) ∨
  isNaN (parseFloat (f_amount expense)) = true →
  let res := addExpense newId expense userId st in
  let violated :=
    if isNaN (parseFloat (f_amount expense)) then NotNull_amount
    else PrimaryKey_id in
  data res.1 = None ∧
  error res.1 =
    Some (default "Failed to add expense" (sqlite_message violated)) ∧
  expenses res.2 = expenses st ∧
  sync_queue res.2 = sync_queue st ∧
  sync_queue_seq res.2 = sync_queue_seq st.
Proof.
  intros Hcase. unfold addExpense, insert_violates, caught_message. simpl.
  destruct (isNaN (parseFloat (f_amount expense))) eqn:Hnan; [done|].
  destruct Hcase as [[old Hold]|?]; [|done]. by rewrite Hold.
Qed.

(** X3. [updateExpense] with no field to change is refused before the
    database is touched: the error is "No fields to update", and neither the
    expense rows (their [synced] flags and [updated_at] stamps included) nor
    the queue change. *)
Theorem updateExpense_without_fields_is_refused i
    (updates : PartialFormData) st :
  provided_fields updates = 0 →
  let res := updateExpense i updates st in
  res.1 = {| data := None; error := Some "No fields to update" |} ∧
  expenses res.2 = expenses st ∧
  sync_queue res.2 = sync_queue st.
Proof.
  intros Hnone. unfold updateExpense.
  rewrite bool_decide_eq_true_2 by lia. done.
Qed.

(** X4. [updateExpense] on a row the table holds, with at least one field.
    When the amount, if given, parses to a number: the stored row keeps its
    id, owner and [created_at], takes each provided field (an empty text as
    NULL) and keeps each field that was not provided, is stamped
    [updated_at = now] and flagged [synced = 0]; the call returns that row
    without error, queues an [update] row for the id and leaves every other
    expense as it was. When the amount given parses to NaN the table
    refuses the update: the call returns no data and the error, and the
    expenses and the queue are as they were. *)
Theorem updateExpense_applies_provided_fields i
    (updates : PartialFormData) st (old : LocalExpense) :
  expenses st !! i = Some old →
  provided_fields updates ≠ 0 →
  let res := updateExpense i updates st in
  (amount_is_NaN updates = false →
   ∃ row,
    res.1 = {| data := Some row; error := None |} ∧
    expenses res.2 !! i = Some row ∧
    id row = id old ∧ user_id row = user_id old ∧
    created_at row = created_at old ∧
    updated_at row = now st ∧ synced row = 0%Z ∧
    category row = default (category old) (u_category updates) ∧
    date row = default (date old) (u_date updates) ∧
    (u_amount updates = None → amount row = amount old) ∧
    (u_notes updates = None → notes row = notes old) ∧
    (u_receipt_url updates = None → receipt_url row = receipt_url old) ∧
    (∀ a, u_amount updates = Some a → amount row = parseFloat a) ∧
    (∀ n, u_notes updates = Some n → notes row = string_or_null n) ∧
    (∀ u, u_receipt_url updates = Some u →
          receipt_url row = string_or_null u) ∧
    has_entry i Update res.2 ∧
    (∀ j, j ≠ i → expenses res.2 !! j = expenses st !! j)) ∧
  (amount_is_NaN updates = true →
   data res.1 = None ∧
   error res.1 =
     Some (default "Failed to update expense"
             (sqlite_message NotNull_amount)) ∧
   expenses res.2 = expenses st ∧
   sync_queue res.2 = sync_queue st).
Proof.
  intros Hold Hfields. unfold updateExpense, update_violates.
  rewrite bool_decide_eq_false_2 by lia. simpl. rewrite Hold.
  split; intros Hnan; rewrite Hnan; simpl; [|done].
  rewrite addToSyncQueue_expenses. simpl.
  rewrite lookup_alter_eq, Hold. simpl.
  eexists. split; [reflexivity|]. split; [reflexivity|]. simpl.
  repeat split; try done.
  - by intros ->.
  - by intros ->.
  - by intros ->.
  - by intros a ->.
  - by intros n ->.
  - by intros u ->.
  - apply addToSyncQueue_has_entry.
  - intros j Hj. by rewrite lookup_alter_ne.
Qed.

(** X5. [deleteExpense] never reports an error, whether or not the table
    holds the id: afterwards no row has the id, every other expense is as it
    was, every row that was queued is still queued, and a [delete] row for
    the id is queued (also for an id the table never held). *)
Theorem deleteExpense_removes_only_that_row i st :
  let res := deleteExpense i st in
  res.1 = None ∧
  expenses res.2 !! i = None ∧
  (∀ j, j ≠ i → expenses res.2 !! j = expenses st !! j) ∧
  (∀ q, q ∈ sync_queue st → q ∈ sync_queue res.2) ∧
  has_entry i Delete res.2 ∧
  length (sync_queue res.2) ≤ S (length (sync_queue st)).
Proof.
  unfold deleteExpense, run_steps. simpl.
  split; [done|]. split; [apply lookup_delete_eq|].
  split; [|split; [|split]].
  - intros j Hj. rewrite lookup_delete_ne by done.
    by rewrite addToSyncQueue_expenses.
  - intros q Hq. by apply addToSyncQueue_keeps.
  - apply addToSyncQueue_has_entry.
  - unfold addToSyncQueue.
    destruct (find _ _); simpl; [lia|]. rewrite length_app. simpl. lia.
Qed.

(** X6. [getExpenses] never fails: it returns exactly the rows of the owner
    (no row of another owner, none of the owner's left out, none twice),
    ordered by [date] descending and, within a date, by [created_at]
    descending; for an owner without rows it returns the empty list. *)
Theorem getExpenses_lists_owner_rows_newest_first (userId : string) st :
  ∃ rows,
    getExpenses userId st = {| data := Some rows; error := None |} ∧
    Sorted newest_first rows ∧
    (∀ e, e ∈ rows ↔ ∃ i, expenses st !! i = Some e ∧ user_id e = userId) ∧
    length rows =
      size (filter (λ kv, user_id kv.2 = userId) (expenses st)) ∧
    ((∀ i e, expenses st !! i = Some e → user_id e ≠ userId) → rows = []).
Proof.
  eexists. split; [reflexivity|].
  split; [apply Sorted_merge_sort, _|].
  split; [|split].
  - intros e. rewrite merge_sort_Permutation. apply elem_of_rows_where.
  - rewrite merge_sort_Permutation. apply length_rows_where.
  - intros Hnone. apply elem_of_nil_inv. intros e He.
    rewrite merge_sort_Permutation in He.
    apply elem_of_rows_where in He as (i & He & Hu). by apply (Hnone i e).
Qed.


End LocalStoreMore.

(** ** Maintenance of the sync queue *)

Section QueueMaintenance.
Context `{Platform}.

Implicit Types (st : Store) (q x y : QueueItem) (l : list QueueItem).

Lemma same_target_pair (k : string * Operation) x :
  same_target k.1 k.2 x = true ↔ pair_of x = k.
Proof.
  rewrite same_target_true. unfold pair_of. destruct k as [i op]. simpl.
  split; [by intros [-> ->]|by intros [= -> ->]].
Qed.

Lemma filter_ext_elem_of {A : Type} (P Q : A → Prop)
    `{!∀ a, Decision (P a), !∀ a, Decision (Q a)} (xs : list A) :
  (∀ a, a ∈ xs → P a ↔ Q a) → filter P xs = filter Q xs.
Proof.
  induction xs as [|a xs IH]; intros Hext; [done|].
  rewrite !filter_cons.
  rewrite IH by (intros b Hb; apply Hext; by right).
  destruct (decide (P a)) as [HP|HP], (decide (Q a)) as [HQ|HQ]; try done.
  - exfalso. apply HQ, Hext; [by left|done].
  - exfalso. apply HP, Hext; [by left|done].
Qed.

Lemma filter_all_elem_of {A : Type} (P : A → Prop)
    `{!∀ a, Decision (P a)} (xs : list A) :
  (∀ a, a ∈ xs → P a) → filter P xs = xs.
Proof.
  induction xs as [|a xs IH]; intros Hall; [done|].
  rewrite filter_cons_True by (apply Hall; by left).
  f_equal. apply IH. intros b Hb. apply Hall. by right.
Qed.

Lemma remove_rowids_spec (ids : list Z) (acc : nat * Store) :
  let out := foldl (λ a qid, (S a.1, removeFromSyncQueue qid a.2)) acc ids in
  sync_queue out.2 = filter (λ x, q_id x ∉ ids) (sync_queue acc.2) ∧
  out.1 = acc.1 + length ids.
Proof.
  revert acc. induction ids as [|n ids IH]; intros acc; simpl.
  - split; [|lia]. symmetry. apply filter_all_elem_of.
    intros x _. apply not_elem_of_nil.
  - destruct (IH (S acc.1, removeFromSyncQueue n acc.2)) as [-> ->].
    simpl. split; [|lia]. rewrite list_filter_filter.
    apply list_filter_iff. intros x. rewrite not_elem_of_cons. tauto.
Qed.

Lemma length_filter_rowids (ids : list Z) l :
  NoDup (q_id <$> l) → NoDup ids → (∀ n, n ∈ ids → n ∈ q_id <$> l) →
  length (filter (λ x, q_id x ∉ ids) l) + length ids = length l.
Proof.
  intros Hl Hids Hsub.
  pose proof (Permutation_length
                (filter_app_complement (λ x, q_id x ∈ ids) l)) as Hc.
  rewrite length_app in Hc.
  assert (Hp : q_id <$> filter (λ x, q_id x ∈ ids) l ≡ₚ ids).
  { apply NoDup_Permutation; [|done|].
    - eapply sublist_NoDup; [exact Hl|]. apply fmap_sublist, sublist_filter.
    - intros n. rewrite list_elem_of_fmap. split.
      + intros (x & -> & [? _]%list_elem_of_filter). done.
      + intros Hn. pose proof (Hsub n Hn) as Hx.
        apply list_elem_of_fmap in Hx as (x & -> & Hx).
        exists x. split; [done|]. by apply list_elem_of_filter. }
  apply Permutation_length in Hp. rewrite length_fmap in Hp. lia.
Qed.

Lemma sorted_head_least (h : Z) (t : list Z) (n : Z) :
  Sorted Z.le (h :: t) → n ∈ h :: t → (h ≤ n)%Z.
Proof.
  intros Hs%(Sorted_StronglySorted _) Hn.
  apply StronglySorted_cons in Hs as [Hh _].
  apply elem_of_cons in Hn as [->|Hn]; [lia|].
  exact (proj1 (Forall_forall _ _) Hh n Hn).
Qed.

Lemma after_group_spec (k : string * Operation) l :
  NoDup (q_id <$> l) →
  after_group k l =
  filter (λ x, pair_of x = k → oldest_of_pair l x) l.
Proof.
  intros Hnd. unfold after_group.
  set (ids := q_id <$> filter (λ y, same_target k.1 k.2 y = true) l).
  assert (Hids : ∀ n, n ∈ ids ↔ ∃ y, y ∈ l ∧ pair_of y = k ∧ q_id y = n).
  { intros n. unfold ids. rewrite list_elem_of_fmap. split.
    - intros (y & -> & [Hy ?]%list_elem_of_filter).
      apply same_target_pair in Hy. eauto.
    - intros (y & Hy & Hk & <-). exists y. split; [done|].
      apply list_elem_of_filter. by rewrite same_target_pair. }
  assert (Hsorted : Sorted Z.le (merge_sort Z.le ids))
    by apply Sorted_merge_sort, _.
  assert (Hperm : merge_sort Z.le ids ≡ₚ ids) by apply merge_sort_Permutation.
  assert (Hnd' : NoDup (merge_sort Z.le ids)).
  { rewrite Hperm. unfold ids. eapply sublist_NoDup; [exact Hnd|].
    apply fmap_sublist, sublist_filter. }
  apply filter_ext_elem_of. intros x Hx. split.
  - intros Hnot Hk. apply Forall_forall. intros y Hy Hxy.
    assert (Hxi : q_id x ∈ merge_sort Z.le ids)
      by (rewrite Hperm; apply Hids; eauto).
    assert (Hyi : q_id y ∈ merge_sort Z.le ids).
    { rewrite Hperm. apply Hids. exists y. by rewrite Hxy, Hk. }
    destruct (merge_sort Z.le ids) as [|h t]; [by apply elem_of_nil in Hxi|].
    simpl in Hnot. apply elem_of_cons in Hxi as [->|?]; [|done].
    by eapply sorted_head_least.
  - intros Hold Hin.
    assert (Hti : q_id x ∈ merge_sort Z.le ids).
    { destruct (merge_sort Z.le ids); [done|]. by right. }
    rewrite Hperm in Hti. apply Hids in Hti as (y & Hy & Hk & Hid).
    assert (y = x) as -> by (by eapply queue_ids_unique_inj).
    specialize (Hold Hk).
    destruct (merge_sort Z.le ids) as [|h t] eqn:E;
      [by apply elem_of_nil in Hin|]. simpl in Hin.
    assert (Hh : h ∈ ids) by (rewrite <- Hperm; by left).
    apply Hids in Hh as (z & Hz & Hzk & Hzid).
    assert (q_id x ≤ h)%Z.
    { rewrite <- Hzid. apply (proj1 (Forall_forall _ _) Hold z Hz).
      by rewrite Hzk, Hk. }
    assert (h ≤ q_id x)%Z by (eapply sorted_head_least; [done|by right]).
    assert (q_id x = h) as Heq by lia.
    apply NoDup_cons in Hnd' as [Hnot _]. apply Hnot. by rewrite <- Heq.
Qed.

Lemma remove_duplicates_of_spec (k : string * Operation) (acc : nat * Store) :
  NoDup (q_id <$> sync_queue acc.2) →
  let out := remove_duplicates_of k acc in
  sync_queue out.2 = after_group k (sync_queue acc.2) ∧
  out.1 + length (sync_queue out.2) = acc.1 + length (sync_queue acc.2).
Proof.
  intros Hnd. unfold remove_duplicates_of.
  set (ids := tail _).
  destruct (remove_rowids_spec ids acc) as [Hq Hn].
  cbv zeta in Hq, Hn. split; [exact Hq|]. rewrite Hq, Hn.
  assert (Hsub : ids `sublist_of`
            merge_sort Z.le
              (q_id <$> filter (λ x, same_target k.1 k.2 x = true)
                               (sync_queue acc.2))).
  { unfold ids. destruct (merge_sort _ _); [done|]. by apply sublist_cons. }
  assert (Hperm := merge_sort_Permutation Z.le
            (q_id <$> filter (λ x, same_target k.1 k.2 x = true)
                             (sync_queue acc.2))).
  assert (Hnd2 : NoDup (q_id <$> filter (λ x, same_target k.1 k.2 x = true)
                                        (sync_queue acc.2))).
  { eapply sublist_NoDup; [exact Hnd|]. apply fmap_sublist, sublist_filter. }
  pose proof (length_filter_rowids ids (sync_queue acc.2) Hnd) as Hlen.
  rewrite <- Hlen; [lia| |].
  - eapply sublist_NoDup; [|exact Hsub]. by rewrite Hperm.
  - intros n Hn'. apply (sublist_subseteq _ _ Hsub) in Hn'.
    rewrite Hperm in Hn'.
    apply list_elem_of_fmap in Hn' as (x & -> & [_ Hx]%list_elem_of_filter).
    by apply list_elem_of_fmap_2.
Qed.

Lemma oldest_of_pair_sublist l1 l2 x :
  (∀ y, y ∈ l1 → y ∈ l2) → oldest_of_pair l2 x → oldest_of_pair l1 x.
Proof.
  unfold oldest_of_pair. rewrite !Forall_forall. intros Hsub Hold y Hy.
  apply Hold, Hsub, Hy.
Qed.

Lemma remove_groups_spec (groups processed : list (string * Operation))
    (orig : list QueueItem) (acc : nat * Store) :
  NoDup (q_id <$> orig) →
  sync_queue acc.2 =
    filter (λ x, pair_of x ∈ processed → oldest_of_pair orig x) orig →
  let out := foldl (λ a k, remove_duplicates_of k a) acc groups in
  sync_queue out.2 =
    filter (λ x, pair_of x ∈ processed ++ groups → oldest_of_pair orig x) orig ∧
  out.1 + length (sync_queue out.2) = acc.1 + length (sync_queue acc.2).
Proof.
  intros Hnd. revert processed acc.
  induction groups as [|k groups IH]; intros processed acc Hacc; simpl.
  { rewrite app_nil_r. done. }
  assert (Hnd_acc : NoDup (q_id <$> sync_queue acc.2)).
  { rewrite Hacc. eapply sublist_NoDup; [exact Hnd|].
    apply fmap_sublist, sublist_filter. }
  destruct (remove_duplicates_of_spec k acc Hnd_acc) as [Hq Hn].
  cbv zeta in Hq, Hn.
  destruct (IH (processed ++ [k]) (remove_duplicates_of k acc)) as [Hq' Hn'].
  - rewrite Hq. set (cur := sync_queue acc.2) in *.
    trans (filter (λ x, (pair_of x = k → oldest_of_pair cur x) ∧
                        (pair_of x ∈ processed → oldest_of_pair orig x)) orig).
    { rewrite after_group_spec by done.
      rewrite <- (list_filter_filter
                    (λ x, pair_of x = k → oldest_of_pair cur x)
                    (λ x, pair_of x ∈ processed → oldest_of_pair orig x) orig).
      by rewrite <- Hacc. }
    apply filter_ext_elem_of. intros x Hx.
    rewrite elem_of_app, list_elem_of_singleton. split.
    + intros [Hk Hp] [Hin|Heq]; [by apply Hp|].
      destruct (decide (k ∈ processed)) as [Hkp|Hkp].
      { apply Hp. by rewrite Heq. }
      specialize (Hk Heq). unfold oldest_of_pair in *.
      rewrite Forall_forall in *. intros y Hy Hxy. apply Hk; [|done].
      rewrite Hacc. apply list_elem_of_filter. split; [|done].
      intros Hyp. exfalso. apply Hkp. by rewrite <- Heq, <- Hxy.
    + intros Hall. split; [|by intros ?; apply Hall; left].
      intros Heq. apply (oldest_of_pair_sublist _ orig); [|by apply Hall; right].
      intros y. rewrite Hacc. by intros [_ ?]%list_elem_of_filter.
  - cbv zeta in Hq', Hn'. rewrite <- app_assoc in Hq'. simpl in Hq'.
    split; [exact Hq'|lia].
Qed.

Lemma length_le_1_eq {A : Type} (xs : list A) (a b : A) :
  length xs ≤ 1 → a ∈ xs → b ∈ xs → a = b.
Proof.
  destruct xs as [|c [|d xs]]; simpl; [by intros _ ?%elem_of_nil| |lia].
  by intros _ ->%list_elem_of_singleton ->%list_elem_of_singleton.
Qed.

Lemma rowid_determines_length l (n : Z) :
  NoDup (q_id <$> l) → (∀ x, x ∈ l → q_id x = n) → length l ≤ 1.
Proof.
  destruct l as [|a [|b l]]; simpl; [lia|lia|].
  intros [Hnot _]%NoDup_cons Hall. exfalso. apply Hnot.
  rewrite (Hall a) by (by left). rewrite <- (Hall b) by (right; by left).
  by left.
Qed.

Lemma least_rowid_exists l :
  l ≠ [] → ∃ x, x ∈ l ∧ ∀ y, y ∈ l → (q_id x ≤ q_id y)%Z.
Proof.
  induction l as [|a l IH]; [done|]. intros _.
  destruct l as [|b l].
  { exists a. split; [by left|]. by intros y ->%list_elem_of_singleton. }
  destruct IH as (m & Hm & Hleast); [done|].
  destruct (decide (q_id a ≤ q_id m)%Z) as [Hle|Hgt].
  - exists a. split; [by left|]. intros y [->|Hy]%elem_of_cons; [lia|].
    specialize (Hleast y Hy). lia.
  - exists m. split; [by right|]. intros y [->|Hy]%elem_of_cons; [lia|].
    by apply Hleast.
Qed.

(** X8. The duplicate clean-up, on a queue with distinct rowids: of the rows
    of each [(expense_id, operation)] pair it keeps exactly the one with the
    smallest rowid, in place. So the queue it leaves has at most one row per
    pair, every pair that had a row still has one, the number it returns is
    the number of rows it deleted, and the expenses are not touched. *)
Theorem removeDuplicateSyncQueueEntries_keeps_oldest_of_pair st :
  queue_ids_unique st →
  let res := removeDuplicateSyncQueueEntries st in
  sync_queue res.2 =
    filter (oldest_of_pair (sync_queue st)) (sync_queue st) ∧
  queue_dedup res.2 ∧
  (∀ i op, has_entry i op st → has_entry i op res.2) ∧
  res.1 + length (sync_queue res.2) = length (sync_queue st) ∧
  expenses res.2 = expenses st.
Proof.
  intros Hnd. unfold queue_ids_unique in Hnd.
  set (orig := sync_queue st).
  assert (Hspec : sync_queue (removeDuplicateSyncQueueEntries st).2 =
            filter (oldest_of_pair orig) orig ∧
          (removeDuplicateSyncQueueEntries st).1 +
            length (sync_queue (removeDuplicateSyncQueueEntries st).2) =
            length orig).
  { destruct (remove_groups_spec (duplicate_groups orig) [] orig (0, st) Hnd)
      as [Hq Hn].
    { simpl. symmetry. apply filter_all_elem_of.
      by intros x _ ?%elem_of_nil. }
    cbv zeta in Hq, Hn. simpl in Hq, Hn.
    unfold removeDuplicateSyncQueueEntries. fold orig.
    split; [|exact Hn]. rewrite Hq.
    apply filter_ext_elem_of. intros x Hx. split; [|done].
    intros Hdup.
    destruct (decide (pair_of x ∈ duplicate_groups orig)) as [Hin|Hout];
      [by apply Hdup|].
    assert (Hlen : length (filter (λ y, same_target (pair_of x).1
                               (pair_of x).2 y = true) orig) ≤ 1).
    { destruct (decide (1 < length (filter (λ y, same_target (pair_of x).1
                               (pair_of x).2 y = true) orig))) as [Hgt|]; [|lia].
      exfalso. apply Hout. unfold duplicate_groups.
      apply list_elem_of_filter. split; [exact Hgt|].
      apply elem_of_remove_dups. by apply (list_elem_of_fmap_2 pair_of). }
    apply Forall_forall. intros y Hy Hxy.
    assert (x = y) as ->; [|lia].
    apply (length_le_1_eq _ _ _ Hlen);
      apply list_elem_of_filter; (split; [|done]); by apply same_target_pair. }
  destruct Hspec as [Hq Hn]. cbv zeta.
  split; [exact Hq|]. split; [|split; [|split; [exact Hn|]]].
  - intros i op. unfold entries_for. rewrite Hq.
    destruct (filter _ (filter _ orig)) as [|a rest] eqn:E; [simpl; lia|].
    rewrite <- E. apply (rowid_determines_length _ (q_id a)).
    + eapply sublist_NoDup; [exact Hnd|].
      apply fmap_sublist. etrans; apply sublist_filter.
    + assert (Ha : a ∈ filter (λ q, same_target i op q = true)
                       (filter (oldest_of_pair orig) orig))
        by (rewrite E; by left).
      apply list_elem_of_filter in Ha as [Hta [Hoa Hain]%list_elem_of_filter].
      intros x [Htx [Hox Hxin]%list_elem_of_filter]%list_elem_of_filter.
      apply same_target_true in Hta as [? ?], Htx as [? ?].
      assert (pair_of x = pair_of a) by (unfold pair_of; congruence).
      unfold oldest_of_pair in Hoa, Hox. rewrite Forall_forall in Hoa, Hox.
      specialize (Hoa x Hxin). specialize (Hox a Hain).
      assert (q_id a ≤ q_id x)%Z by (by apply Hoa).
      assert (q_id x ≤ q_id a)%Z by (by apply Hox). lia.
  - intros i op Hh. unfold has_entry in *. rewrite Exists_exists in *.
    destruct Hh as (q & Hq0 & Hi & Hop).
    destruct (least_rowid_exists
                (filter (λ y, same_target i op y = true) orig))
      as (m & Hm & Hleast).
    { intros Hnil. eapply (filter_nil_not_elem_of _ _ q); [exact Hnil| |done].
      by apply same_target_true. }
    apply list_elem_of_filter in Hm as [Htm Hmin].
    apply same_target_true in Htm as [? ?].
    exists m. split; [|done]. rewrite Hq. apply list_elem_of_filter.
    split; [|done]. apply Forall_forall. intros y Hy Hym.
    apply Hleast. apply list_elem_of_filter. split; [|done].
    apply same_target_true. unfold pair_of in Hym.
    injection Hym as ? ?. split; congruence.
  - by destruct (removeDuplicateSyncQueueEntries_sublist st) as [_ ->].
Qed.

(** X9. [clearFailedSyncItems] deletes exactly the queue rows whose
    [retry_count] is at or above the given maximum and returns how many it
    deleted; the rows below the maximum stay, in their order, and the
    expenses are not touched. A second call then deletes nothing, and after
    a call with the ceiling of the push loop no row is left that the loop
    would skip. *)
Theorem clearFailedSyncItems_purges_rows_at_ceiling (maxRetries : Z) st :
  let res := clearFailedSyncItems maxRetries st in
  (∀ q, q ∈ sync_queue res.2 ↔
        q ∈ sync_queue st ∧ (q_retry_count q < maxRetries)%Z) ∧
  sync_queue res.2 `sublist_of` sync_queue st ∧
  res.1 + length (sync_queue res.2) = length (sync_queue st) ∧
  expenses res.2 = expenses st ∧
  clearFailedSyncItems maxRetries res.2 = (0, res.2) ∧
  (maxRetries = MAX_RETRIES →
   ∀ q, q ∈ getSyncQueue res.2 → (q_retry_count q < MAX_RETRIES)%Z).
Proof.
  simpl. split; [|split; [|split; [|split; [done|split]]]].
  - intros q. rewrite list_elem_of_filter. tauto.
  - apply sublist_filter.
  - pose proof (length_filter (λ q, (q_retry_count q < maxRetries)%Z)
                  (sync_queue st)). lia.
  - unfold clearFailedSyncItems. simpl.
    rewrite (filter_all_elem_of _ (filter _ _))
      by (by intros q [? _]%list_elem_of_filter).
    f_equal. lia.
  - intros -> q Hq. rewrite getSyncQueue_Permutation in Hq. simpl in Hq.
    by apply list_elem_of_filter in Hq as [? _].
Qed.

End QueueMaintenance.

(** ** Further properties of the push loop *)

Section PushOutcomes.
Context `{Platform} {R : Type} `{!Remote R}.

Implicit Types (st : Store) (s : @PushState _ R) (item q : QueueItem).

(** X10. A [create] row whose remote insert fails with anything but a
    uniqueness conflict is a real failure: no success is counted, exactly
    one message ["create <id>: <message>"] is appended to the error list, the
    [retry_count] of the queue row goes up by one and the row stays queued,
    and the expense keeps its user data and its [synced] flag and gets the
    message as [sync_error]. A row that fails with [retry_count] 2 is at the
    ceiling afterwards: the loop no longer touches it. *)
Theorem push_create_failure_is_retried_later (userId : string) s item
    (localExpense : LocalExpense) (expenseData : ExpenseFormData)
    (err : RemoteError) (r1 : R) :
  q_operation item = Create →
  (q_retry_count item < MAX_RETRIES)%Z →
  expenses (p_store s) !! q_expense_id item = Some localExpense →
  expenseData_of localExpense = Some expenseData →
  remote_addExpense expenseData userId
    (Some (q_expense_id item)) (p_remote s) = (Some err, r1) →
  isDuplicate err = false →
  let s' := push_item userId s item in
  successCount s' = successCount s ∧
  p_errors s' = p_errors s ++
    ["create " +:+ q_expense_id item +:+ ": " +:+ push_error_message err] ∧
  sync_queue (p_store s') =
    bump_retry (q_id item) <$> sync_queue (p_store s) ∧
  (item ∈ sync_queue (p_store s) →
   ∃ q, q ∈ sync_queue (p_store s') ∧ q_id q = q_id item ∧
        q_expense_id q = q_expense_id item ∧ q_operation q = Create ∧
        q_retry_count q = (q_retry_count item + 1)%Z ∧
        (q_retry_count item = 2%Z → ∀ s2, push_item userId s2 q = s2)) ∧
  (∃ row, expenses (p_store s') !! q_expense_id item = Some row ∧
          sync_error row = Some (push_error_message err) ∧
          synced row = synced localExpense ∧
          same_user_data row localExpense) ∧
  p_remote s' = r1.
Proof.
  intros Hop Hr Hrow Hdata Hadd Hdup.
  unfold push_item, push_attempt, getExpenseById, call_remote.
  rewrite bool_decide_eq_false_2 by lia. simpl.
  rewrite Hop, Hrow. simpl. rewrite Hdata. simpl. rewrite Hadd, Hdup. simpl.
  split; [done|]. split; [done|]. split; [done|].
  split; [|split; [|done]].
  - intros Hin. exists (bump_retry (q_id item) item).
    split; [by apply list_elem_of_fmap_2|].
    unfold bump_retry. rewrite bool_decide_eq_true_2 by done. simpl.
    repeat split; try done.
    intros H2 s2. rewrite bool_decide_eq_true_2; [done|].
    unfold MAX_RETRIES. lia.
  - rewrite lookup_alter_eq, Hrow. simpl. eexists. split; [done|].
    unfold same_user_data. simpl. tauto.
Qed.

(** X11. A [delete] row is pushed without looking at the local table. When
    the remote delete succeeds, or fails with a message that contains
    "not found", "No rows" or "invalid input syntax for type uuid", the
    iteration is a success: the queue row is deleted, a success is counted
    and no error is recorded. Any other error is a real failure: the retry
    count goes up and the message is appended to the error list. In both
    cases exactly one remote call, the delete, is made. *)
Theorem push_delete_tolerates_missing_remote_row (userId : string) s item
    (answer : option RemoteError) (r1 : R) :
  q_operation item = Delete →
  (q_retry_count item < MAX_RETRIES)%Z →
  remote_deleteExpense (q_expense_id item) (p_remote s) = (answer, r1) →
  let tolerated :=
    match answer with
    | None => true
    | Some e =>
        isNotFound (default "" (e_message e)) ||
        isInvalidUUID (default "" (e_message e))
    end in
  let s' := push_item userId s item in
  p_calls s' = p_calls s ++ [CallDeleteExpense (q_expense_id item)] ∧
  p_remote s' = r1 ∧
  (tolerated = true →
     successCount s' = S (successCount s) ∧
     p_errors s' = p_errors s ∧
     sync_queue (p_store s') =
       filter (λ q, q_id q ≠ q_id item) (sync_queue (p_store s)) ∧
     expenses (p_store s') = expenses (p_store s)) ∧
  (tolerated = false →
     successCount s' = successCount s ∧
     length (p_errors s') = S (length (p_errors s)) ∧
     sync_queue (p_store s') =
       bump_retry (q_id item) <$> sync_queue (p_store s) ∧
     (expenses (p_store s) !! q_expense_id item = None →
      expenses (p_store s') = expenses (p_store s))).
Proof.
  intros Hop Hr Hdel.
  unfold push_item, push_attempt, call_remote.
  rewrite bool_decide_eq_false_2 by lia. simpl.
  rewrite Hop, Hdel. simpl.
  destruct answer as [e|]; simpl.
  - destruct (isNotFound (default "" (e_message e))),
      (isInvalidUUID (default "" (e_message e))); simpl;
      (split; [done|]); (split; [done|]); split; try done; intros _;
      rewrite ?length_app; simpl; repeat split; try done; try lia.
    intros Hnone. apply map_eq. intros j. rewrite lookup_alter.
    case_decide; [subst; by rewrite Hnone|done].
  - repeat split; done.
Qed.

(** X12. An [update] row whose remote update fails falls back to a remote
    insert with the same id and the same data. If the insert succeeds the
    iteration is a success (row marked synced, queue row deleted, success
    counted). If the insert fails too the iteration is a failure, also when
    the insert failed on a uniqueness conflict: unlike for a [create] row,
    the conflict is not tolerated here. The remote calls are the update and
    then the insert. *)
Theorem push_update_falls_back_to_insert (userId : string) s item
    (localExpense : LocalExpense) (expenseData : ExpenseFormData)
    (updateError : RemoteError) (r1 : R)
    (createAnswer : option RemoteError) (r2 : R) :
  q_operation item = Update →
  (q_retry_count item < MAX_RETRIES)%Z →
  expenses (p_store s) !! q_expense_id item = Some localExpense →
  expenseData_of localExpense = Some expenseData →
  remote_updateExpense (q_expense_id item) expenseData
    (p_remote s) = (Some updateError, r1) →
  remote_addExpense expenseData userId
    (Some (q_expense_id item)) r1 = (createAnswer, r2) →
  let s' := push_item userId s item in
  p_calls s' = p_calls s ++
    [CallUpdateExpense (q_expense_id item) expenseData;
     CallAddExpense expenseData userId (Some (q_expense_id item))] ∧
  p_remote s' = r2 ∧
  match createAnswer with
  | None =>
      successCount s' = S (successCount s) ∧
      p_errors s' = p_errors s ∧
      sync_queue (p_store s') =
        filter (λ q, q_id q ≠ q_id item) (sync_queue (p_store s)) ∧
      synced <$> expenses (p_store s') !! q_expense_id item = Some 1%Z
  | Some createError =>
      successCount s' = successCount s ∧
      p_errors s' = p_errors s ++
        ["update " +:+ q_expense_id item +:+ ": " +:+
         push_error_message createError] ∧
      sync_queue (p_store s') =
        bump_retry (q_id item) <$> sync_queue (p_store s) ∧
      synced <$> expenses (p_store s') !! q_expense_id item =
        Some (synced localExpense)
  end.
Proof.
  intros Hop Hr Hrow Hdata Hupd Hadd.
  unfold push_item, push_attempt, getExpenseById, call_remote.
  rewrite bool_decide_eq_false_2 by lia. simpl.
  rewrite Hop, Hrow. simpl. rewrite Hdata. simpl.
  rewrite Hupd. simpl. rewrite Hadd. simpl.
  rewrite <- app_assoc. simpl.
  destruct createAnswer as [e|]; simpl;
    rewrite lookup_alter_eq, Hrow; done.
Qed.

Global Instance same_user_data_refl : Reflexive same_user_data.
Proof. intros e. unfold same_user_data. tauto. Qed.

Global Instance same_user_data_trans : Transitive same_user_data.
Proof.
  intros a b c. unfold same_user_data.
  intros (?&?&?&?&?&?&?&?&?) (?&?&?&?&?&?&?&?&?).
  repeat split; congruence.
Qed.

Global Instance keeps_user_data_refl : Reflexive keeps_user_data.
Proof. intros m i. reflexivity. Qed.

Global Instance keeps_user_data_trans : Transitive keeps_user_data.
Proof. intros a b c Hab Hbc i. etrans; [apply Hab|apply Hbc]. Qed.

Lemma keeps_user_data_alter (f : LocalExpense → LocalExpense) i
    (m : gmap string LocalExpense) :
  (∀ e, same_user_data e (f e)) → keeps_user_data m (alter f i m).
Proof.
  intros Hf j. rewrite lookup_alter. case_decide; [subst|reflexivity].
  destruct (m !! j); constructor. apply Hf.
Qed.

Lemma markExpenseAsSynced_keeps i st :
  keeps_user_data (expenses st) (expenses (markExpenseAsSynced i st)) ∧
  sync_queue (markExpenseAsSynced i st) = sync_queue st.
Proof.
  split; [|done]. unfold markExpenseAsSynced. simpl.
  apply keeps_user_data_alter. intros e. unfold same_user_data. simpl. tauto.
Qed.

Lemma markExpenseSyncFailed_keeps i msg st :
  keeps_user_data (expenses st) (expenses (markExpenseSyncFailed i msg st)) ∧
  sync_queue (markExpenseSyncFailed i msg st) = sync_queue st.
Proof.
  split; [|done]. unfold markExpenseSyncFailed. simpl.
  apply keeps_user_data_alter. intros e. unfold same_user_data. simpl. tauto.
Qed.

Ltac push_branches :=
  unfold push_item, push_attempt, call_remote, getExpenseById, count_success,
    push_error, with_store in *;
  simpl in *; repeat (case_match; simpl in *; simplify_eq; try done).

Lemma push_item_keeps_user_data userId s item :
  keeps_user_data (expenses (p_store s))
    (expenses (p_store (push_item userId s item))).
Proof.
  push_branches; try reflexivity;
    try apply markExpenseAsSynced_keeps;
    try apply markExpenseSyncFailed_keeps.
Qed.

Lemma push_item_accounting userId s item :
  let s' := push_item userId s item in
  successCount s ≤ successCount s' ∧
  length (p_errors s) ≤ length (p_errors s') ∧
  successCount s' + length (p_errors s') ≤
    successCount s + length (p_errors s) + 1 ∧
  length (p_calls s') ≤ length (p_calls s) + 2.
Proof.
  push_branches; simpl; rewrite ?length_app; simpl; lia.
Qed.

Lemma push_loop_accounting userId (l : list QueueItem) s :
  let s' := push_loop userId l s in
  successCount s' + length (p_errors s') ≤
    successCount s + length (p_errors s) + length (below_ceiling l) ∧
  length (p_calls s') ≤ length (p_calls s) + 2 * length (below_ceiling l) ∧
  keeps_user_data (expenses (p_store s)) (expenses (p_store s')).
Proof.
  revert s. induction l as [|x l IH]; intros s; simpl.
  { split; [lia|]. split; [lia|]. reflexivity. }
  destruct (IH (push_item userId s x)) as (Hc & Hcalls & Hk).
  cbv zeta in Hc, Hcalls, Hk.
  fold (push_loop userId l (push_item userId s x)) in *.
  destruct (decide (q_retry_count x < MAX_RETRIES)%Z) as [Hlt|Hge].
  - assert (Hb : length (below_ceiling (x :: l)) = S (length (below_ceiling l))).
    { unfold below_ceiling. by rewrite filter_cons_True. }
    pose proof (push_item_accounting userId s x) as (H1 & H2 & H3 & H4).
    cbv zeta in H1, H2, H3, H4. rewrite Hb.
    split; [lia|]. split; [lia|].
    etrans; [apply push_item_keeps_user_data|exact Hk].
  - assert (Hb : below_ceiling (x :: l) = below_ceiling l).
    { unfold below_ceiling. by rewrite filter_cons_False. }
    rewrite push_item_skips in Hc, Hcalls, Hk by lia.
    rewrite Hb, push_item_skips by lia. done.
Qed.

Lemma length_filter_sublist {A : Type} (P : A → Prop)
    `{!∀ a, Decision (P a)} (xs ys : list A) :
  xs `sublist_of` ys → length (filter P xs) ≤ length (filter P ys).
Proof.
  induction 1 as [|a xs ys _ IH|a xs ys _ IH]; [done| |];
    rewrite ?filter_cons; repeat case_decide; simpl; lia.
Qed.

Lemma queue_effect_shrinks item (before after : list QueueItem) :
  queue_effect item before after →
  length after ≤ length before ∧
  ∀ q', q' ∈ after →
    ∃ q, q ∈ before ∧ q_id q = q_id q' ∧ pair_of q = pair_of q' ∧
         q_data q = q_data q' ∧ q_created_at q = q_created_at q' ∧
         (q_retry_count q ≤ q_retry_count q')%Z.
Proof.
  intros [].
  - split; [lia|]. intros q' Hq'. exists q'. repeat split; (done || lia).
  - split; [apply length_filter|]. intros q' [_ Hq']%list_elem_of_filter.
    exists q'. repeat split; (done || lia).
  - split; [by rewrite length_fmap|].
    intros q' (q & -> & Hq)%list_elem_of_fmap. exists q.
    unfold bump_retry, pair_of. case_bool_decide; simpl;
      repeat split; (done || lia).
Qed.

Lemma push_loop_shrinks userId (l : list QueueItem) s :
  let s' := push_loop userId l s in
  length (sync_queue (p_store s')) ≤ length (sync_queue (p_store s)) ∧
  ∀ q', q' ∈ sync_queue (p_store s') →
    ∃ q, q ∈ sync_queue (p_store s) ∧ q_id q = q_id q' ∧
         pair_of q = pair_of q' ∧ q_data q = q_data q' ∧
         q_created_at q = q_created_at q' ∧
         (q_retry_count q ≤ q_retry_count q')%Z.
Proof.
  revert s. induction l as [|x l IH]; intros s; simpl.
  { split; [lia|]. intros q' Hq'. exists q'. repeat split; (done || lia). }
  destruct (IH (push_item userId s x)) as [Hlen Hrows].
  cbv zeta in Hlen, Hrows.
  fold (push_loop userId l (push_item userId s x)) in *.
  destruct (queue_effect_shrinks x _ _ (push_item_queue_effect userId s x))
    as [Hlen1 Hrows1].
  split; [lia|].
  intros q' Hq'. destruct (Hrows q' Hq') as (q1 & Hq1 & ? & ? & ? & ? & ?).
  destruct (Hrows1 q1 Hq1) as (q & Hq & ? & ? & ? & ? & ?).
  exists q. repeat split; (congruence || lia).
Qed.

Lemma pushToRemote_bounds (userId : string) st (r : R) :
  let s' := pushToRemote userId st r in
  successCount s' + length (p_errors s') ≤
    length (below_ceiling (sync_queue st)) ∧
  length (p_calls s') ≤ 2 * length (below_ceiling (sync_queue st)) ∧
  length (sync_queue (p_store s')) ≤ length (sync_queue st).
Proof.
  cbv zeta. unfold pushToRemote.
  destruct (removeDuplicateSyncQueueEntries_sublist st) as [Hsub _].
  set (st1 := (removeDuplicateSyncQueueEntries st).2) in *.
  set (s0 := {| p_store := st1; p_remote := r; successCount := 0;
                p_errors := []; p_calls := [] |}).
  assert (Hbelow : length (below_ceiling (getSyncQueue st1)) ≤
                   length (below_ceiling (sync_queue st))).
  { unfold below_ceiling. rewrite getSyncQueue_Permutation.
    by apply length_filter_sublist. }
  destruct (push_loop_accounting userId (getSyncQueue st1) s0) as (Hc & Hcalls & _).
  destruct (push_loop_shrinks userId (getSyncQueue st1) s0) as [Hlen _].
  cbv zeta in Hc, Hcalls, Hlen. simpl in Hc, Hcalls, Hlen.
  split; [lia|]. split; [lia|]. apply sublist_length in Hsub. lia.
Qed.

(** X13. The accounts of a push: each queue row below the retry ceiling
    yields at most one success or one error message and at most two remote
    calls, and a row at the ceiling yields none, so the successes and the
    errors together never exceed the number of rows below the ceiling. A
    push never adds a queue row: every row left afterwards was queued
    before, with the same rowid, expense id, operation, payload and stamp,
    and a retry count that did not go down. *)
Theorem pushToRemote_accounts_for_each_row (userId : string) st (r : R) :
  let s' := pushToRemote userId st r in
  successCount s' + length (p_errors s') ≤
    length (below_ceiling (sync_queue st)) ∧
  length (p_calls s') ≤ 2 * length (below_ceiling (sync_queue st)) ∧
  length (sync_queue (p_store s')) ≤ length (sync_queue st) ∧
  (∀ q', q' ∈ sync_queue (p_store s') →
     ∃ q, q ∈ sync_queue st ∧ q_id q = q_id q' ∧
          q_expense_id q = q_expense_id q' ∧
          q_operation q = q_operation q' ∧ q_data q = q_data q' ∧
          q_created_at q = q_created_at q' ∧
          (q_retry_count q ≤ q_retry_count q')%Z) ∧
  ((∀ q, q ∈ sync_queue st → (MAX_RETRIES ≤ q_retry_count q)%Z) →
   successCount s' = 0 ∧ p_errors s' = [] ∧ p_calls s' = []).
Proof.
  cbv zeta. unfold pushToRemote.
  destruct (removeDuplicateSyncQueueEntries_sublist st) as [Hsub _].
  set (st1 := (removeDuplicateSyncQueueEntries st).2) in *.
  set (s0 := {| p_store := st1; p_remote := r; successCount := 0;
                p_errors := []; p_calls := [] |}).
  assert (Hbelow : length (below_ceiling (getSyncQueue st1)) ≤
                   length (below_ceiling (sync_queue st))).
  { unfold below_ceiling. rewrite getSyncQueue_Permutation.
    by apply length_filter_sublist. }
  destruct (push_loop_accounting userId (getSyncQueue st1) s0) as (Hc & Hcalls & _).
  destruct (push_loop_shrinks userId (getSyncQueue st1) s0) as [Hlen Hrows].
  cbv zeta in Hc, Hcalls, Hlen, Hrows. simpl in Hc, Hcalls, Hlen, Hrows.
  split; [lia|]. split; [lia|].
  split; [apply sublist_length in Hsub; lia|]. split.
  - intros q' Hq'. destruct (Hrows q' Hq') as (q & Hq & ? & Hp & ? & ? & ?).
    exists q. unfold pair_of in Hp. injection Hp as ? ?.
    split; [by apply (sublist_subseteq _ _ Hsub)|]. done.
  - intros Hall.
    assert (Hnil : below_ceiling (sync_queue st) = []).
    { apply elem_of_nil_inv. intros q [Hlt Hq]%list_elem_of_filter.
      specialize (Hall q Hq). lia. }
    rewrite Hnil in *. simpl in *.
    assert (successCount (push_loop userId (getSyncQueue st1) s0) = 0) by lia.
    split; [done|]. split; apply nil_length_inv; lia.
Qed.

(** X14. A push never creates or deletes an expense row and never changes
    the user data of one: every id is in the table afterwards exactly when
    it was before, with the same owner, amount, category, date, notes,
    receipt and stamps. Only [synced], [sync_error] and [last_sync_at] can
    differ. *)
Theorem pushToRemote_keeps_user_data (userId : string) st (r : R) :
  keeps_user_data (expenses st)
    (expenses (p_store (pushToRemote userId st r))).
Proof.
  unfold pushToRemote.
  destruct (removeDuplicateSyncQueueEntries_sublist st) as [_ He].
  destruct (push_loop_accounting userId
              (getSyncQueue (removeDuplicateSyncQueueEntries st).2)
              {| p_store := (removeDuplicateSyncQueueEntries st).2;
                 p_remote := r; successCount := 0; p_errors := [];
                 p_calls := [] |}) as (_ & _ & Hk).
  cbv zeta in Hk. simpl in Hk. by rewrite He in Hk.
Qed.







Section HealthyRemote.
Hypothesis add_succeeds : ∀ d u i (r : R), (remote_addExpense d u i r).1 = None.
Hypothesis update_succeeds : ∀ i d (r : R), (remote_updateExpense i d r).1 = None.
Hypothesis delete_succeeds : ∀ i (r : R), (remote_deleteExpense i r).1 = None.




End HealthyRemote.

(** X24. The queue the local store builds never needs the duplicate
    clean-up: after any sequence of [addExpense], [updateExpense] and
    [deleteExpense] calls on an empty database the clean-up that opens each
    push deletes nothing, returns 0 and leaves the store as it is. *)
Theorem cleanup_is_noop_after_local_operations (ops : list LocalOp) :
  removeDuplicateSyncQueueEntries (run_locals ops empty_store) =
  (0, run_locals ops empty_store).
Proof.
  apply removeDuplicateSyncQueueEntries_dedup.
  assert (He : queue_dedup empty_store) by (intros i op; simpl; lia).
  revert He. generalize empty_store.
  induction ops as [|o ops IH]; intros st Hd; [done|].
  simpl. apply IH. by apply run_local_dedup.
Qed.

(** X25. A [create] or [update] row whose expense holds a date the runtime
    cannot parse is never sent: the adapter throws at [toISOString()] before
    any request, so the iteration is a failure without a remote call, also
    for an [update] row, for which no fall-back insert is tried. The message
    of the [RangeError] is recorded, the retry count of the queue row goes
    up by one, and the expense keeps its user data (the date included) and
    its [synced] flag. *)
Theorem push_unparsable_date_fails_without_call (userId : string) s item
    (localExpense : LocalExpense) :
  q_operation item ≠ Delete →
  (q_retry_count item < MAX_RETRIES)%Z →
  expenses (p_store s) !! q_expense_id item = Some localExpense →
  Date_toISOString (date localExpense) = None →
  let s' := push_item userId s item in
  p_calls s' = p_calls s ∧
  p_remote s' = p_remote s ∧
  successCount s' = successCount s ∧
  p_errors s' = p_errors s ++
    [operation_name (q_operation item) +:+ " " +:+ q_expense_id item +:+
     ": " +:+ RangeError_message] ∧
  sync_queue (p_store s') =
    bump_retry (q_id item) <$> sync_queue (p_store s) ∧
  ∃ row, expenses (p_store s') !! q_expense_id item = Some row ∧
         sync_error row = Some RangeError_message ∧
         synced row = synced localExpense ∧
         same_user_data row localExpense ∧
         Date_toISOString (date row) = None.
Proof.
  intros Hop Hr Hrow Hdate.
  unfold push_item, push_attempt, getExpenseById, expenseData_of.
  rewrite bool_decide_eq_false_2 by lia. simpl.
  rewrite Hrow, Hdate. simpl.
  destruct (q_operation item); [| |done]; simpl;
    (repeat (split; [done|])); rewrite lookup_alter_eq, Hrow; simpl;
    eexists; (split; [done|]); unfold same_user_data; simpl; tauto.
Qed.

End PushOutcomes.

(** ** Properties of the pull phase and of the whole cycle *)

Section PullAndCycle.
Context `{Platform} {R : Type} `{!Remote R}.

Implicit Types (st : Store) (records : list Expense).

Lemma upsertExpenseFromRemote_row (remoteExpense : Expense) st :
  sync_queue (upsertExpenseFromRemote remoteExpense st).2 = sync_queue st ∧
  (∀ j, j ≠ r_id remoteExpense →
        expenses (upsertExpenseFromRemote remoteExpense st).2 !! j =
        expenses st !! j) ∧
  ∃ row,
    expenses (upsertExpenseFromRemote remoteExpense st).2
      !! r_id remoteExpense = Some row ∧
    mirrors remoteExpense row.
Proof.
  unfold upsertExpenseFromRemote. simpl. split; [done|]. split.
  - intros j Hj. destruct (expenses st !! r_id remoteExpense);
      by rewrite lookup_insert_ne.
  - destruct (expenses st !! r_id remoteExpense); eexists;
      (split; [apply lookup_insert_eq|]); unfold mirrors; simpl;
      repeat split; eauto.
Qed.

Lemma pull_fold_spec records (acc : nat * Store) :
  let out :=
    foldl (λ a remoteExpense,
             (S a.1, (upsertExpenseFromRemote remoteExpense a.2).2))
          acc records in
  out.1 = acc.1 + length records ∧
  sync_queue out.2 = sync_queue acc.2 ∧
  (∀ j, j ∉ r_id <$> records → expenses out.2 !! j = expenses acc.2 !! j) ∧
  (∀ j, j ∈ r_id <$> records →
     ∃ row remoteExpense earlier later,
       expenses out.2 !! j = Some row ∧
       records = earlier ++ remoteExpense :: later ∧
       r_id remoteExpense = j ∧ (j ∉ r_id <$> later) ∧
       mirrors remoteExpense row).
Proof.
  induction records as [|rec records IH] using rev_ind; simpl.
  { split; [lia|]. split; [done|]. split; [done|].
    by intros j ?%elem_of_nil. }
  rewrite foldl_app. simpl.
  destruct IH as (Hn & Hq & Hother & Hrows). cbv zeta in Hn, Hq, Hother, Hrows.
  set (mid := foldl _ acc records) in *.
  destruct (upsertExpenseFromRemote_row rec mid.2)
    as (Hq' & Hother' & row & Hrow & Hm).
  rewrite length_app. simpl. split; [lia|]. split; [congruence|].
  split.
  - intros j Hj. rewrite fmap_app, elem_of_app in Hj. simpl in Hj.
    rewrite Hother'; [apply Hother; tauto|].
    intros ->. apply Hj. right. by left.
  - intros j Hj.
    destruct (decide (j = r_id rec)) as [->|Hne].
    + exists row, rec, records, []. split; [done|]. split; [done|].
      split; [done|]. split; [apply not_elem_of_nil|done].
    + rewrite fmap_app, elem_of_app in Hj. simpl in Hj.
      destruct Hj as [Hj|Hj%list_elem_of_singleton]; [|done].
      destruct (Hrows j Hj) as (row' & rec' & b & a & Hl & -> & Hid & Hlast & Hm').
      exists row', rec', b, (a ++ [rec]). rewrite Hother' by done.
      split; [done|]. split; [by rewrite <- app_assoc|].
      split; [done|]. split; [|done].
      rewrite fmap_app, elem_of_app. simpl.
      intros [?|?%list_elem_of_singleton]; done.
Qed.


Lemma pullFromRemote_queue (userId : string) st (r : R) :
  sync_queue (l_store (pullFromRemote userId st r)) = sync_queue st.
Proof.
  unfold pullFromRemote.
  destruct (remote_getExpenses userId r) as [[remoteExpenses err] r1].
  destruct err; [done|]. destruct remoteExpenses as [[|rec records]|]; try done.
  destruct (pull_fold_spec (rec :: records) (0, st)) as (_ & Hq & _).
  cbv zeta in Hq. destruct (foldl _ _ _) as [n st1]. exact Hq.
Qed.


(** X16. A pull that the remote store answers with an error changes
    nothing locally: the expenses and the queue are as they were, nothing is
    counted, and the result carries the single message
    ["Pull failed: <message>"], where a plain error object gives "Unknown
    error". An answer without data and without error is no work and no
    error. *)
Theorem pullFromRemote_failure_changes_nothing (userId : string) st (r r1 : R)
    (answer : option (list Expense)) (err : option RemoteError) :
  remote_getExpenses userId r = ((answer, err), r1) →
  err ≠ None ∨ answer = None →
  let out := pullFromRemote userId st r in
  l_store out = st ∧
  l_count out = 0 ∧
  l_remote out = r1 ∧
  l_errors out =
    match err with
    | Some e =>
        ["Pull failed: " +:+
         (if e_instanceof_Error e then default "" (e_message e)
          else "Unknown error")]
    | None => []
    end.
Proof.
  intros Hget Hcase. cbv zeta. unfold pullFromRemote. rewrite Hget.
  destruct err as [e|]; [done|].
  destruct Hcase as [?| ->]; done.
Qed.

(** X17. [forcePullFromRemote] never pushes: it reports zero pushed, makes
    no insert, update or delete call on the remote store, and leaves the
    sync queue exactly as it was, so queued local changes are still pending
    after it. Offline it does nothing at all and reports failure; online
    its store, count and errors are those of the pull, and it reports
    success exactly when the pull recorded no error. *)
Theorem forcePullFromRemote_never_pushes (net : NetInfoState)
    (userId : string) st (r : R) :
  let o := forcePullFromRemote net userId st r in
  pushed (o_result o) = 0 ∧
  sync_queue (o_store o) = sync_queue st ∧
  (∀ c, c ∈ o_calls o → c = CallGetExpenses userId) ∧
  (isOnline net = false →
     o_store o = st ∧ o_remote o = r ∧ o_calls o = [] ∧
     success (o_result o) = false ∧ pulled (o_result o) = 0) ∧
  (isOnline net = true →
     o_store o = l_store (pullFromRemote userId st r) ∧
     pulled (o_result o) = l_count (pullFromRemote userId st r) ∧
     errors (o_result o) = l_errors (pullFromRemote userId st r) ∧
     (success (o_result o) = true ↔ errors (o_result o) = [])).
Proof.
  cbv zeta. unfold forcePullFromRemote.
  destruct (isOnline net); simpl.
  - split; [done|]. split; [apply pullFromRemote_queue|].
    split; [by intros c ->%list_elem_of_singleton|].
    split; [done|]. intros _. repeat split; try done.
    + intros Hs%bool_decide_eq_true. by apply nil_length_inv.
    + intros ->. by apply bool_decide_eq_true.
  - split; [done|]. split; [done|].
    split; [by intros c ?%elem_of_nil|]. split; [done|]. done.
Qed.

(** X18. An online sync cycle pushes before it pulls: its remote calls are
    those of the push followed by the single listing call of the pull, the
    pull runs on the store and the remote state the push left, and the queue
    after the cycle is the queue the push left (the pull never touches it).
    It reports success exactly when neither phase recorded an error. With an
    empty queue the cycle pushes nothing and its only remote call is the
    listing. *)
Theorem syncExpenses_pushes_then_pulls (net : NetInfoState)
    (userId : string) st (r : R) :
  isOnline net = true →
  let o := syncExpenses net userId st r in
  let pushResult := pushToRemote userId st r in
  let pullResult :=
    pullFromRemote userId (p_store pushResult) (p_remote pushResult) in
  o_calls o = p_calls pushResult ++ [CallGetExpenses userId] ∧
  o_store o = l_store pullResult ∧
  sync_queue (o_store o) = sync_queue (p_store pushResult) ∧
  pushed (o_result o) = successCount pushResult ∧
  pulled (o_result o) = l_count pullResult ∧
  errors (o_result o) = p_errors pushResult ++ l_errors pullResult ∧
  (success (o_result o) = true ↔
     p_errors pushResult = [] ∧ l_errors pullResult = []) ∧
  length (sync_queue (o_store o)) ≤ length (sync_queue st) ∧
  (sync_queue st = [] →
     pushed (o_result o) = 0 ∧ o_calls o = [CallGetExpenses userId] ∧
     sync_queue (o_store o) = []).
Proof.
  intros Hon. cbv zeta. unfold syncExpenses. rewrite Hon. simpl.
  rewrite pullFromRemote_queue.
  destruct (pushToRemote_bounds userId st r) as (Hc & Hcalls & Hlen).
  cbv zeta in Hc, Hcalls, Hlen.
  do 6 (split; [done|]). split; [|split; [done|]].
  - rewrite bool_decide_eq_true. split.
    + intros Hs. apply nil_length_inv in Hs. by apply app_eq_nil in Hs.
    + by intros [-> ->].
  - intros Hnil. rewrite Hnil in Hc, Hcalls, Hlen. simpl in Hc, Hcalls, Hlen.
    split; [lia|]. split.
    + assert (p_calls (pushToRemote userId st r) = []) as ->
        by (apply nil_length_inv; lia). done.
    + apply nil_length_inv. lia.
Qed.

End PullAndCycle.

(** ** UUID generation and validation *)

Section UUID.

Lemma toString16_digit (v : Z) :
  (0 ≤ v < 16)%Z → toString16 v = String (hex_char v) EmptyString.
Proof.
  intros Hv. unfold toString16. simpl.
  rewrite Z.mod_small by lia.
  destruct (v <? 16)%Z eqn:E; [done|]. apply Z.ltb_ge in E. lia.
Qed.

Lemma digit_cases (v : Z) (P : Z → Prop) :
  (0 ≤ v < 16)%Z →
  P 0%Z → P 1%Z → P 2%Z → P 3%Z → P 4%Z → P 5%Z → P 6%Z → P 7%Z →
  P 8%Z → P 9%Z → P 10%Z → P 11%Z → P 12%Z → P 13%Z → P 14%Z → P 15%Z →
  P v.
Proof.
  intros Hv ????????????????.
  destruct v as [|p|p]; [done| |lia].
  do 4 (destruct p as [p|p|]; try done; try lia).
Qed.

Lemma hex_char_is_hex (v : Z) :
  (0 ≤ v < 16)%Z → in_class HexDigit (hex_char v) = true.
Proof.
  intros Hv.
  apply (digit_cases v (λ v, in_class HexDigit (hex_char v) = true) Hv);
    reflexivity.
Qed.

Lemma variant_digit (r : Z) :
  (0 ≤ r < 16)%Z →
  (8 ≤ Z.lor (Z.land r 3) 8 < 12)%Z ∧
  in_class Variant (hex_char (Z.lor (Z.land r 3) 8)) = true.
Proof.
  intros Hr.
  apply (digit_cases r
           (λ r, (8 ≤ Z.lor (Z.land r 3) 8 < 12)%Z ∧
                 in_class Variant (hex_char (Z.lor (Z.land r 3) 8)) = true) Hr);
    (split; [by vm_compute|reflexivity]).
Qed.

Lemma replace_xy_x (t : string) (rand : nat → Z) (n : nat) :
  replace_xy (String "x" t) rand n =
  toString16 (rand n) +:+ replace_xy t rand (S n).
Proof. reflexivity. Qed.

Lemma replace_xy_y (t : string) (rand : nat → Z) (n : nat) :
  replace_xy (String "y" t) rand n =
  toString16 (Z.lor (Z.land (rand n) 3) 8) +:+ replace_xy t rand (S n).
Proof. reflexivity. Qed.

Lemma replace_xy_dash (t : string) (rand : nat → Z) (n : nat) :
  replace_xy (String "-" t) rand n = String "-" (replace_xy t rand n).
Proof. reflexivity. Qed.

Lemma replace_xy_4 (t : string) (rand : nat → Z) (n : nat) :
  replace_xy (String "4" t) rand n = String "4" (replace_xy t rand n).
Proof. reflexivity. Qed.

Lemma matches_classes_length (pattern : list CharClass) (s : string) :
  matches_classes pattern s = true → String.length s = length pattern.
Proof.
  revert s. induction pattern as [|cls pattern IH]; intros [|c s]; simpl;
    try done.
  intros [_ Hs]%andb_true_iff. f_equal. by apply IH.
Qed.

(** X19. Without [crypto.randomUUID], [generateUUID] fills the template
    with the digits of the random draws, and whatever the draws are (each an
    integer from 0 to 15) the string it returns passes [isValidUUID]: 36
    characters, hexadecimal digits and dashes in the 8-4-4-4-12 layout,
    version digit 4 and a variant digit among 8, 9, a, b. *)
Theorem generateUUID_fallback_is_valid (rand : nat → Z) :
  (∀ n, 0 ≤ rand n < 16)%Z →
  let uuid := generateUUID None rand in
  isValidUUID uuid = true ∧
  String.length uuid = 36 ∧
  String.get 14 uuid = Some "4"%char ∧
  (∃ v, (8 ≤ v < 12)%Z ∧ String.get 19 uuid = Some (hex_char v)).
Proof.
  intros Hrand. cbv zeta.
  assert (Hshape : ∃ d : nat → Z, (∀ n, 0 ≤ d n < 16)%Z ∧
    (8 ≤ d 16%nat < 12)%Z ∧
    in_class Variant (hex_char (d 16)) = true ∧
    generateUUID None rand =
      String (hex_char (d 0)) (String (hex_char (d 1)) (String (hex_char (d 2))
      (String (hex_char (d 3)) (String (hex_char (d 4)) (String (hex_char (d 5))
      (String (hex_char (d 6)) (String (hex_char (d 7)) (String "-"
      (String (hex_char (d 8)) (String (hex_char (d 9)) (String (hex_char (d 10))
      (String (hex_char (d 11)) (String "-" (String "4"
      (String (hex_char (d 12)) (String (hex_char (d 13)) (String (hex_char (d 14))
      (String "-" (String (hex_char (d 16))
      (String (hex_char (d 17)) (String (hex_char (d 18)) (String (hex_char (d 19))
      (String "-"
      (String (hex_char (d 20)) (String (hex_char (d 21)) (String (hex_char (d 22))
      (String (hex_char (d 23)) (String (hex_char (d 24)) (String (hex_char (d 25))
      (String (hex_char (d 26)) (String (hex_char (d 27)) (String (hex_char (d 28))
      (String (hex_char (d 29)) (String (hex_char (d 30)) (String (hex_char (d 31))
      EmptyString)))))))))))))))))))))))))))))))))))).
  { destruct (variant_digit (rand 15) (Hrand 15)) as [Hv Hc].
    exists (λ n, if decide (n = 16) then Z.lor (Z.land (rand 15) 3) 8
                 else if decide (n < 16) then rand n else rand (n - 1)).
    split; [|split; [|split]].
    - intros n. repeat case_decide; [lia|apply Hrand..].
    - simpl. lia.
    - exact Hc.
    - unfold generateUUID, uuid_template.
      repeat (rewrite ?replace_xy_x, ?replace_xy_y, ?replace_xy_dash,
                ?replace_xy_4).
      rewrite !toString16_digit by (apply Hrand || lia). reflexivity. }
  destruct Hshape as (d & Hd & Hv & Hc & ->).
  split; [|split; [reflexivity|split; [reflexivity|]]].
  - unfold isValidUUID.
    let p := eval vm_compute in uuid_pattern in change uuid_pattern with p.
    cbn [matches_classes].
    rewrite !hex_char_is_hex by apply Hd. rewrite Hc. reflexivity.
  - exists (d 16). split; [exact Hv|reflexivity].
Qed.

(** X20. [isValidUUID] accepts only strings of 36 characters with a dash at
    positions 8, 13, 18 and 23; in particular it rejects the empty string
    and every placeholder id of the form ["temp-..."] that the expenses
    context gives an optimistic row. *)
Theorem isValidUUID_shape (uuid : string) :
  isValidUUID uuid = true →
  String.length uuid = 36 ∧
  String.get 8 uuid = Some "-"%char ∧ String.get 13 uuid = Some "-"%char ∧
  String.get 18 uuid = Some "-"%char ∧ String.get 23 uuid = Some "-"%char ∧
  uuid ≠ EmptyString ∧
  ∀ rest, uuid ≠ "temp-" +:+ rest.
Proof.
  intros Hvalid.
  assert (Hlen : String.length uuid = 36)
    by (by apply matches_classes_length in Hvalid).
  split; [exact Hlen|].
  unfold isValidUUID, uuid_pattern in Hvalid. simpl in Hvalid.
  do 24 (destruct uuid as [|? uuid]; [discriminate|]).
  simpl in Hvalid.
  repeat (apply andb_true_iff in Hvalid as [? Hvalid]).
  repeat match goal with
         | Hd : bool_decide _ = true |- _ => apply bool_decide_eq_true in Hd
         end.
  subst. simpl. repeat split; try done.
  intros rest Heq. injection Heq as -> -> -> -> -> _. discriminate.
Qed.

End UUID.

(** ** The optimistic updates of the expenses context *)

Section ExpensesContext.
Context `{Platform}.

Implicit Types (st : Store) (i : string) (l prev : list ListedExpense).

Lemma replace_listed_absent i (x : ListedExpense) l :
  i ∉ listed_id <$> l → replace_listed i x l = l.
Proof.
  induction l as [|e l IH]; simpl; [done|].
  rewrite not_elem_of_cons. intros [Hne Hl]. unfold replace_listed in *.
  simpl. rewrite bool_decide_eq_false_2 by done. f_equal. by apply IH.
Qed.

Lemma replace_listed_twice i (x y : ListedExpense) l :
  listed_id y = i →
  replace_listed i x (replace_listed i y l) = replace_listed i x l.
Proof.
  intros Hy. unfold replace_listed. rewrite <- list_fmap_compose.
  apply list_fmap_ext. intros _ e _. simpl.
  destruct (decide (listed_id e = i)) as [He|He].
  - rewrite (bool_decide_eq_true_2 (listed_id e = i)) by done.
    by rewrite bool_decide_eq_true_2.
  - rewrite (bool_decide_eq_false_2 (listed_id e = i)) by done.
    by rewrite bool_decide_eq_false_2.
Qed.

Lemma replace_listed_backup i (b : ListedExpense) l :
  NoDup (listed_id <$> l) →
  List.find (λ e, bool_decide (listed_id e = i)) l = Some b →
  replace_listed i b l = l ∧ listed_id b = i ∧ b ∈ l.
Proof.
  induction l as [|e l IH]; simpl; [done|].
  intros [Hnot Hnd]%NoDup_cons. case_bool_decide as Hid.
  - intros [= ->]. split; [|split; [done|by left]].
    unfold replace_listed. simpl.
    f_equal. apply replace_listed_absent. by rewrite <- Hid.
  - intros Hf. destruct (IH Hnd Hf) as (Hl & Hb & Hin).
    split; [|split; [done|by right]].
    unfold replace_listed in *. simpl.
    rewrite ?bool_decide_eq_false_2 by done. by f_equal.
Qed.

Lemma find_listed_None i l :
  List.find (λ e, bool_decide (listed_id e = i)) l = None →
  i ∉ listed_id <$> l.
Proof.
  intros Hf (e & -> & He)%list_elem_of_fmap.
  apply list_elem_of_In in He.
  pose proof (find_none _ _ Hf e He) as Hn. simpl in Hn.
  by apply bool_decide_eq_false in Hn.
Qed.

Lemma listed_id_optimistic_update (updates : PartialFormData)
    (stamp : string) (b : ListedExpense) :
  listed_id (optimistic_update updates stamp b) = listed_id b.
Proof. by destruct b. Qed.

(** X21. The optimistic add of the expenses context, for a signed-in user
    and a placeholder id that is not in the list. When the local store
    accepts the expense (the generated id is new and the amount parses to a
    number), the list afterwards is the previous list with the stored row at
    its head: the placeholder is gone and the head is exactly the row the
    [expenses] table now holds, with the data of the form, unsynced, with
    its [create] row queued. When the local store refuses it (the amount
    parses to NaN, or the generated id is taken), the placeholder is rolled
    back: the list is the previous list, the message of the local store is
    reported and the tables are unchanged. Without a signed-in user nothing
    happens and "Not authenticated" is reported. *)
Theorem context_addExpense_shows_stored_row_or_rolls_back
    (userId tempId newId : string) (expenseData : ExpenseFormData) prev st :
  userId ≠ EmptyString →
  tempId ∉ listed_id <$> prev →
  let out := context_addExpense (Some userId) tempId newId expenseData prev st in
  let violated :=
    if isNaN (parseFloat (f_amount expenseData)) then NotNull_amount
    else PrimaryKey_id in
  (expenses st !! newId = None →
   isNaN (parseFloat (f_amount expenseData)) = false →
     ∃ row, out.1 = (None, FromStore row :: prev) ∧
            expenses out.2 !! newId = Some row ∧
            id row = newId ∧ user_id row = userId ∧ synced row = 0%Z ∧
            amount row = parseFloat (f_amount expenseData) ∧
            category row = f_category expenseData ∧
            date row = f_date expenseData ∧
            notes row = string_or_null (f_notes expenseData) ∧
            has_entry newId Create out.2) ∧
  (is_Some (expenses st !! newId) ∨
   isNaN (parseFloat (f_amount expenseData)) = true →
     out.1 = (Some (default "Failed to add expense" (sqlite_message violated)),
              prev) ∧
     expenses out.2 = expenses st ∧ sync_queue out.2 = sync_queue st) ∧
  context_addExpense None tempId newId expenseData prev st =
    (Some "Not authenticated", prev, st) ∧
  context_addExpense (Some EmptyString) tempId newId expenseData prev st =
    (Some "Not authenticated", prev, st).
Proof.
  intros Huser Htemp. cbv zeta.
  assert (Hu : option_or_null (Some userId) = Some userId)
    by (by destruct userId).
  assert (Hback : filter (λ e, listed_id e ≠ tempId) prev = prev).
  { apply filter_all_elem_of. intros e He Heq. apply Htemp. rewrite <- Heq.
    by apply list_elem_of_fmap_2. }
  unfold context_addExpense. rewrite Hu.
  unfold addExpense, insert_violates, caught_message. simpl.
  split; [|split; [|done]].
  - intros Hfresh Hnum. rewrite Hnum, Hfresh. simpl. eexists. split.
    + unfold replace_listed. simpl. rewrite bool_decide_eq_true_2 by done.
      f_equal. f_equal. by apply replace_listed_absent.
    + rewrite addToSyncQueue_expenses. simpl. rewrite lookup_insert_eq.
      repeat split; try done. apply addToSyncQueue_has_entry.
  - intros Hcase.
    destruct (isNaN (parseFloat (f_amount expenseData))) eqn:Hnan; simpl.
    + split; [|done]. f_equal.
      rewrite filter_cons_False by (intros Hne; by apply Hne). exact Hback.
    + destruct Hcase as [[old Hold]|?]; [|done]. rewrite Hold. simpl.
      split; [|done]. f_equal.
      rewrite filter_cons_False by (intros Hne; by apply Hne). exact Hback.
Qed.

(** X22. The optimistic update of the expenses context, on a list with
    distinct ids. When the local store refuses the update (no field given,
    or an amount that parses to NaN for a row the table holds), the list is
    rolled back to exactly what it was, the optimistic copy included, and
    the message of the local store is reported; the tables are unchanged.
    When the table holds the id and accepts the update, every list entry
    with that id becomes the row the table now holds. When the list shows
    the id but the table does not hold it (a placeholder, say), no error is
    reported and the optimistic copy stays in the list although no row was
    written. *)
Theorem context_updateExpense_rolls_back_or_shows_stored_row i
    (updates : PartialFormData) prev st :
  NoDup (listed_id <$> prev) →
  let out := context_updateExpense i updates prev st in
  (provided_fields updates = 0 →
     out.1 = (Some "No fields to update", prev) ∧
     expenses out.2 = expenses st ∧ sync_queue out.2 = sync_queue st) ∧
  (provided_fields updates ≠ 0 → is_Some (expenses st !! i) →
   amount_is_NaN updates = true →
     out.1 = (Some (default "Failed to update expense"
                      (sqlite_message NotNull_amount)), prev) ∧
     expenses out.2 = expenses st ∧ sync_queue out.2 = sync_queue st) ∧
  (provided_fields updates ≠ 0 → is_Some (expenses st !! i) →
   amount_is_NaN updates = false →
     ∃ row, out.1 = (None, replace_listed i (FromStore row) prev) ∧
            expenses out.2 !! i = Some row ∧ synced row = 0%Z) ∧
  (provided_fields updates ≠ 0 → expenses st !! i = None →
     ∀ b, List.find (λ e, bool_decide (listed_id e = i)) prev = Some b →
       out.1 = (None, replace_listed i (optimistic_update updates (now st) b)
                        prev) ∧
       expenses out.2 = expenses st ∧
       has_entry i Update out.2).
Proof.
  intros Hnd. cbv zeta. unfold context_updateExpense.
  assert (Hrefused : ∀ st0, provided_fields updates = 0 →
            updateExpense i updates st0 =
            ({| data := None; error := Some "No fields to update" |}, tick st0)).
  { intros st0 Hnone. unfold updateExpense.
    by rewrite bool_decide_eq_true_2 by lia. }
  assert (Hnan : ∀ st0 old, provided_fields updates ≠ 0 →
            expenses st0 !! i = Some old → amount_is_NaN updates = true →
            updateExpense i updates st0 =
            ({| data := None;
                error := Some (default "Failed to update expense"
                                 (sqlite_message NotNull_amount)) |},
             tick st0)).
  { intros st0 old Hsome Hold Hn. unfold updateExpense, update_violates.
    rewrite bool_decide_eq_false_2 by lia. cbv zeta.
    cbn [expenses tick]. by rewrite Hold, Hn. }
  assert (Hknown : ∀ st0 old, provided_fields updates ≠ 0 →
            expenses st0 !! i = Some old → amount_is_NaN updates = false →
            ∃ row st1, updateExpense i updates st0 =
                         ({| data := Some row; error := None |}, st1) ∧
                       expenses st1 !! i = Some row ∧ synced row = 0%Z).
  { intros st0 old Hsome Hold Hn. unfold updateExpense, update_violates.
    rewrite bool_decide_eq_false_2 by lia. cbv zeta.
    cbn [expenses tick]. rewrite Hold, Hn.
    rewrite addToSyncQueue_expenses. cbn [expenses with_expenses tick].
    rewrite lookup_alter_eq, Hold. cbn [fmap option_fmap option_map].
    eexists _, _. split; [reflexivity|].
    rewrite addToSyncQueue_expenses. cbn [expenses with_expenses tick].
    rewrite lookup_alter_eq, Hold. done. }
  assert (Hunknown : ∀ st0, provided_fields updates ≠ 0 →
            expenses st0 !! i = None →
            ∃ st1, updateExpense i updates st0 =
                     ({| data := None; error := None |}, st1) ∧
                   expenses st1 = expenses st0 ∧ has_entry i Update st1).
  { intros st0 Hsome Hnone. unfold updateExpense, update_violates.
    rewrite bool_decide_eq_false_2 by lia. cbv zeta.
    cbn [expenses tick]. rewrite Hnone.
    rewrite addToSyncQueue_expenses. cbn [expenses with_expenses tick].
    rewrite lookup_alter_eq, Hnone. cbn [fmap option_fmap option_map].
    eexists. split; [reflexivity|].
    split; [|apply addToSyncQueue_has_entry].
    rewrite addToSyncQueue_expenses. cbn [expenses with_expenses tick].
    apply map_eq. intros j. rewrite lookup_alter.
    case_decide; [subst; by rewrite Hnone|done]. }
  destruct (List.find _ prev) as [b|] eqn:Hfind.
  - destruct (replace_listed_backup i b prev Hnd Hfind) as (Hself & Hb & _).
    split; [|split; [|split]].
    + intros Hnone. rewrite Hrefused by done. cbn.
      split; [|done]. f_equal.
      rewrite replace_listed_twice
        by (by rewrite listed_id_optimistic_update). done.
    + intros Hsome [old Hold] Hn.
      rewrite (Hnan (tick st) old Hsome Hold Hn). cbn.
      split; [|done]. f_equal.
      rewrite replace_listed_twice
        by (by rewrite listed_id_optimistic_update). done.
    + intros Hsome [old Hold] Hn.
      destruct (Hknown (tick st) old Hsome Hold Hn)
        as (row & st1 & -> & Hrow & Hs).
      cbn. exists row. split; [|done]. f_equal.
      apply replace_listed_twice. by rewrite listed_id_optimistic_update.
    + intros Hsome Hnone b' [= <-].
      destruct (Hunknown (tick st) Hsome Hnone) as (st1 & -> & He & Hq).
      cbn. done.
  - split; [|split; [|split]].
    + intros Hnone. rewrite Hrefused by done. done.
    + intros Hsome [old Hold] Hn.
      rewrite (Hnan st old Hsome Hold Hn). done.
    + intros Hsome [old Hold] Hn.
      destruct (Hknown st old Hsome Hold Hn) as (row & st1 & -> & Hrow & Hs).
      cbn. exists row. done.
    + intros _ _ b' Hb'. discriminate.
Qed.

End ExpensesContext.

(** ** The properties on concrete runs *)

Section Examples.
Local Existing Instance sample_platform.

Lemma queue_dedup_empty : queue_dedup empty_store.
Proof. intros i op. simpl. lia. Qed.

Lemma sync_consistent_empty : sync_consistent empty_store.
Proof.
  split.
  - intros i e He. simpl in He. by rewrite lookup_empty in He.
  - intros q Hq. by apply elem_of_nil in Hq.
Qed.

(** C1 on a store holding one expense, the device offline. *)
Lemma syncExpenses_offline_witness :
  isOnline offline_net = false ∧
  let o := syncExpenses (Remote0 := failing_remote) offline_net "user-1"
             one_expense_store tt in
  o_store o = one_expense_store ∧ status_of_result (o_result o) = StatusError.
Proof.
  split; [reflexivity|].
  pose proof (syncExpenses_offline (Remote0 := failing_remote) offline_net
                "user-1" one_expense_store tt eq_refl) as Hw.
  cbv zeta in Hw. destruct Hw as (_ & _ & Hst & _ & _ & _ & _ & Hstatus).
  split; assumption.
Defined.

(** C1, the claim as first stated fails: the offline cycle is reported as an
    error ([success] is [false], one error message, status [error]), not as a
    non-error outcome. *)
Lemma syncExpenses_offline_reports_error :
  let o := syncExpenses (Remote0 := failing_remote) offline_net "user-1"
             one_expense_store tt in
  isOnline offline_net = false ∧
  success (o_result o) = false ∧
  errors (o_result o) = ["Device is offline"] ∧
  status_of_result (o_result o) = StatusError.
Proof. vm_compute. tauto. Qed.

(** C2 on the empty store. *)
Lemma updateExpense_unknown_id_witness :
  expenses empty_store !! "missing" = None ∧
  provided_fields recategorise ≠ 0 ∧
  error (updateExpense "missing" recategorise empty_store).1 = None ∧
  has_entry "missing" Update (updateExpense "missing" recategorise empty_store).2.
Proof.
  assert (H1 : expenses empty_store !! "missing" = None) by reflexivity.
  assert (H2 : provided_fields recategorise ≠ 0) by (vm_compute; lia).
  pose proof (updateExpense_unknown_id "missing" recategorise empty_store H1 H2)
    as Hw.
  cbv zeta in Hw. destruct Hw as (_ & Herr & _ & Hentry & _).
  repeat split; assumption.
Defined.

(** C2, the claim as first stated fails: for an id the table does not hold,
    [updateExpense] reports no error and queues an [update] row for it. *)
Lemma updateExpense_unknown_id_reports_success :
  let res := updateExpense "missing" recategorise empty_store in
  expenses empty_store !! "missing" = None ∧
  error res.1 = None ∧
  data res.1 = None ∧
  (λ q, (q_expense_id q, q_operation q)) <$> sync_queue res.2 =
    [("missing", Update)].
Proof. vm_compute. tauto. Qed.

(** C3 on a queue whose first row is at the retry ceiling. *)
Lemma getSyncQueue_lists_all_witness :
  queue_ids_unique clock_set_back_store ∧
  (∃ e, (MAX_RETRIES ≤ q_retry_count e)%Z ∧
        e ∈ getSyncQueue clock_set_back_store ∧
        e ∈ sync_queue
              (p_store (pushToRemote (Remote0 := failing_remote) "user-1"
                          clock_set_back_store tt))).
Proof.
  assert (Hu : queue_ids_unique clock_set_back_store).
  { refine (@bool_decide_unpack
              (NoDup (q_id <$> sync_queue clock_set_back_store)) _ _).
    vm_compute. exact I. }
  split; [exact Hu|].
  set (e := {| q_id := 1; q_expense_id := "a"; q_operation := Create;
               q_data := None; q_created_at := "2024-05-02T09:00:00.000Z";
               q_retry_count := 3 |}).
  assert (He : e ∈ sync_queue
                 (removeDuplicateSyncQueueEntries clock_set_back_store).2).
  { vm_compute. left. }
  assert (Hr : (MAX_RETRIES ≤ q_retry_count e)%Z) by (vm_compute; discriminate).
  assert (Hin : e ∈ sync_queue clock_set_back_store) by (vm_compute; left).
  pose proof (getSyncQueue_lists_all_push_skips_ceiling
                (Remote0 := failing_remote) "user-1" clock_set_back_store tt)
    as Hw.
  destruct Hw as (_ & _ & _ & Hall & Hkept).
  destruct (Hall e Hin Hr) as (Hlisted & _).
  exists e. split; [exact Hr|]. split; [exact Hlisted|exact (Hkept Hu e He Hr)].
Defined.

(** C3, the claim as first stated fails: on this queue [getSyncQueue]
    returns the row that is at the retry ceiling, and returns rowid 2 before
    rowid 1. *)
Lemma getSyncQueue_returns_ceiling_row_out_of_rowid_order :
  (λ q, (q_id q, q_retry_count q)) <$> getSyncQueue clock_set_back_store =
    [(2, 0); (1, 3)]%Z.
Proof. vm_compute. reflexivity. Qed.

(** C5 on a run that repeats an update and a delete of one expense. *)
Lemma sync_queue_one_entry_per_operation_witness :
  queue_dedup empty_store ∧
  queue_dedup
    (run_locals [OpAdd "e1" lunch "user-1"; OpUpdate "e1" recategorise;
                 OpUpdate "e1" recategorise; OpDelete "e1"; OpDelete "e1"]
       empty_store).
Proof.
  split; [exact queue_dedup_empty|].
  apply (sync_queue_one_entry_per_operation
           [OpAdd "e1" lunch "user-1"; OpUpdate "e1" recategorise;
            OpUpdate "e1" recategorise; OpDelete "e1"; OpDelete "e1"]
           empty_store queue_dedup_empty).
Defined.

(** C6 stopped after the first statement. *)
Lemma deleteExpense_enqueues_before_removing_witness :
  1 ≤ 1 ∧
  has_entry "e1" Delete
    (run_steps (take 1 (deleteExpense_steps "e1")) one_expense_store) ∧
  expenses (run_steps (take 1 (deleteExpense_steps "e1")) one_expense_store) =
    expenses one_expense_store.
Proof.
  assert (Hk : 1 ≤ 1) by lia.
  pose proof (deleteExpense_enqueues_before_removing "e1" one_expense_store 1 Hk)
    as Hw.
  cbv zeta in Hw. destruct Hw as (Hentry & Hsame & _).
  split; [exact Hk|]. split; [exact Hentry|exact (Hsame eq_refl)].
Defined.

(** C7 against a remote store that already holds the record. *)
Lemma push_create_conflict_is_success_witness :
  let s := push_item (Remote0 := conflicting_remote) "user-1"
             (push_start one_expense_store tt)
             (first_queue_row one_expense_store) in
  q_operation (first_queue_row one_expense_store) = Create ∧
  successCount s = 1 ∧ p_errors s = [] ∧ sync_queue (p_store s) = [].
Proof.
  set (item := first_queue_row one_expense_store).
  assert (Hop : q_operation item = Create) by reflexivity.
  assert (Hr : (q_retry_count item < MAX_RETRIES)%Z) by reflexivity.
  pose proof (push_create_conflict_is_success (Remote0 := conflicting_remote)
                "user-1" (push_start one_expense_store tt) item _ _ _ tt
                Hop Hr eq_refl eq_refl eq_refl eq_refl) as Hw.
  cbv zeta in Hw. destruct Hw as (Hc & He & Hq & _).
  split; [exact Hop|]. split; [exact Hc|]. split; [exact He|].
  rewrite Hq. vm_compute. reflexivity.
Defined.

(** C8 on a run that adds, edits and deletes one expense. *)
Lemma local_mutations_keep_sync_consistent_witness :
  sync_consistent empty_store ∧
  sync_consistent
    (run_locals [OpAdd "e1" lunch "user-1"; OpUpdate "e1" recategorise;
                 OpDelete "e1"] empty_store).
Proof.
  split; [exact sync_consistent_empty|].
  apply (local_mutations_keep_sync_consistent
           [OpAdd "e1" lunch "user-1"; OpUpdate "e1" recategorise;
            OpDelete "e1"] empty_store sync_consistent_empty).
Defined.

Lemma reachable_run_locals (ops : list LocalOp) (st : Store) :
  reachable st → reachable (run_locals ops st).
Proof.
  revert st. induction ops as [|o ops IH]; intros st Hr; [done|].
  simpl. apply IH. by apply reachable_local.
Qed.

(** C8, the claim as first stated fails: an expense is added and edited
    offline; in the next sync cycle the insert succeeds, which marks the row
    synced, and the update times out, which leaves its queue row behind. The
    store reached has a synced row with a queue row referencing it. *)
Lemma synced_expense_with_pending_update :
  reachable edited_then_synced_store ∧
  synced <$> expenses edited_then_synced_store !! "e1" = Some 1%Z ∧
  (λ q, (q_expense_id q, q_operation q, q_retry_count q)) <$>
    sync_queue edited_then_synced_store = [("e1", Update, 1%Z)] ∧
  ¬ sync_consistent edited_then_synced_store.
Proof.
  assert (Hrow : synced <$> expenses edited_then_synced_store !! "e1"
                 = Some 1%Z) by (vm_compute; reflexivity).
  assert (Hq : (λ q, (q_expense_id q, q_operation q, q_retry_count q)) <$>
                 sync_queue edited_then_synced_store = [("e1", Update, 1%Z)])
    by (vm_compute; reflexivity).
  split; [|split; [exact Hrow|split; [exact Hq|]]].
  - apply (reachable_sync bool), reachable_run_locals, reachable_empty.
  - intros [HA _].
    destruct (expenses edited_then_synced_store !! "e1") as [e|] eqn:E;
      [|discriminate].
    apply (HA "e1" e E); [by injection Hrow|].
    unfold referenced.
    destruct (sync_queue edited_then_synced_store) as [|q [|q' l]];
      try discriminate.
    apply Exists_cons_hd. by injection Hq.
Qed.

(** C9, the claim as first stated fails: after the purge the owner's expense
    row is gone and the queue row referencing it is still there. *)
Lemma deleteAllUserExpenses_leaves_queue_rows :
  let st' := (deleteAllUserExpenses "user-1" one_expense_store).2 in
  user_id <$> expenses one_expense_store !! "e1" = Some "user-1" ∧
  expenses st' !! "e1" = None ∧
  (λ q, (q_expense_id q, q_operation q)) <$> sync_queue st' = [("e1", Create)].
Proof. vm_compute. tauto. Qed.

(** C10 on a queued update whose expense is not in the table. *)
Lemma push_drops_entry_of_missing_expense_witness :
  let item := first_queue_row orphan_update_store in
  let s := push_item (Remote0 := conflicting_remote) "user-1"
             (push_start orphan_update_store tt) item in
  q_operation item ≠ Delete ∧
  (q_retry_count item < MAX_RETRIES)%Z ∧
  expenses orphan_update_store !! q_expense_id item = None ∧
  p_calls s = [] ∧ p_errors s = [] ∧
  sync_queue
    (p_store (pushToRemote (Remote0 := conflicting_remote) "user-1"
                orphan_update_store tt)) = [].
Proof.
  set (item := first_queue_row orphan_update_store).
  assert (Hop : q_operation item ≠ Delete) by (vm_compute; discriminate).
  assert (Hr : (q_retry_count item < MAX_RETRIES)%Z) by reflexivity.
  assert (Hn : expenses orphan_update_store !! q_expense_id item = None)
    by reflexivity.
  pose proof (push_drops_entry_of_missing_expense (Remote0 := conflicting_remote)
                "user-1" orphan_update_store tt
                (push_start orphan_update_store tt) item Hop Hr Hn) as Hw.
  cbv zeta in Hw. destruct Hw as (_ & _ & _ & Hc & _ & He & _).
  split; [exact Hop|]. split; [exact Hr|]. split; [exact Hn|].
  split; [exact Hc|]. split; [exact He|]. vm_compute. reflexivity.
Defined.

(** C10, the claim as first stated fails: the [create] row of this store has
    failed three times and its expense has since been deleted; the push
    skips the row and leaves it in the queue. *)
Lemma push_keeps_ceiling_row_of_missing_expense :
  let st := thrice_failed_then_deleted_store in
  let s := pushToRemote (Remote0 := conflicting_remote) "user-1" st tt in
  reachable st ∧
  expenses st !! "e1" = None ∧
  (λ q, (q_expense_id q, q_operation q, q_retry_count q)) <$> sync_queue st =
    [("e1", Create, 3%Z); ("e1", Delete, 0%Z)] ∧
  (λ q, (q_expense_id q, q_operation q, q_retry_count q)) <$>
    sync_queue (p_store s) = [("e1", Create, 3%Z)].
Proof.
  split.
  - apply reachable_run_locals.
    do 3 apply (reachable_sync unit).
    apply reachable_run_locals, reachable_empty.
  - vm_compute. tauto.
Qed.

End Examples.

(** ** The further properties on concrete runs *)

Section MoreExamples.
Local Existing Instance sample_platform.

(** X1 on the empty store. *)
Lemma addExpense_stores_unsynced_row_witness :
  expenses empty_store !! "e1" = None ∧
  has_entry "e1" Create (addExpense "e1" lunch "user-1" empty_store).2 ∧
  is_Some (data (getExpenseById "e1"
                   (addExpense "e1" lunch "user-1" empty_store).2)).
Proof.
  assert (Hfresh : expenses empty_store !! "e1" = None) by reflexivity.
  assert (Hnum : isNaN (parseFloat (f_amount lunch)) = false) by reflexivity.
  pose proof (addExpense_stores_unsynced_row "e1" lunch "user-1" empty_store
                Hfresh Hnum) as Hw.
  cbv zeta in Hw.
  destruct Hw as (row & _ & Hget & _ & _ & _ & _ & _ & _ & _ & _ & _ & _ & _ & _
                  & Hq & _).
  split; [exact Hfresh|]. split; [exact Hq|]. rewrite Hget. by eexists.
Defined.

(** X2 on a form whose amount is no number, and on an id the table
    holds. *)
Lemma addExpense_refused_changes_nothing_witness :
  isNaN (parseFloat (f_amount unpriced)) = true ∧
  is_Some (expenses one_expense_store !! "e1") ∧
  sync_queue (addExpense "e1" unpriced "user-1" empty_store).2 = [] ∧
  error (addExpense "e1" unpriced "user-1" empty_store).1 =
    Some "NOT NULL constraint failed: expenses.amount" ∧
  error (addExpense "e1" lunch "user-1" one_expense_store).1 =
    Some "UNIQUE constraint failed: expenses.id".
Proof.
  assert (Hnan : isNaN (parseFloat (f_amount unpriced)) = true) by reflexivity.
  assert (Hheld : is_Some (expenses one_expense_store !! "e1"))
    by (vm_compute; by eexists).
  pose proof (addExpense_refused_changes_nothing "e1" unpriced "user-1"
                empty_store (or_intror Hnan)) as Hw.
  pose proof (addExpense_refused_changes_nothing "e1" lunch "user-1"
                one_expense_store (or_introl Hheld)) as Hw2.
  cbv zeta in Hw, Hw2.
  destruct Hw as (_ & Herr & _ & Hq & _). destruct Hw2 as (_ & Herr2 & _).
  split; [exact Hnan|]. split; [exact Hheld|]. split; [exact Hq|].
  split; [exact Herr|exact Herr2].
Defined.

(** X3 on an update without fields. *)
Lemma updateExpense_without_fields_is_refused_witness :
  provided_fields no_updates = 0 ∧
  expenses (updateExpense "e1" no_updates one_expense_store).2 =
    expenses one_expense_store.
Proof.
  assert (Hnone : provided_fields no_updates = 0) by reflexivity.
  pose proof (updateExpense_without_fields_is_refused "e1" no_updates
                one_expense_store Hnone) as Hw.
  cbv zeta in Hw. destruct Hw as (_ & He & _). split; [exact Hnone|exact He].
Defined.

(** X4 on a change of category. *)
Lemma updateExpense_applies_provided_fields_witness :
  is_Some (expenses one_expense_store !! "e1") ∧
  provided_fields recategorise ≠ 0 ∧
  has_entry "e1" Update (updateExpense "e1" recategorise one_expense_store).2.
Proof.
  destruct (expenses one_expense_store !! "e1") as [old|] eqn:Hold;
    [|by vm_compute in Hold].
  assert (Hf : provided_fields recategorise ≠ 0) by (vm_compute; lia).
  pose proof (updateExpense_applies_provided_fields "e1" recategorise
                one_expense_store old Hold Hf) as Hw.
  cbv zeta in Hw. destruct Hw as (Hok & _).
  destruct (Hok eq_refl)
    as (row & _ & _ & _ & _ & _ & _ & _ & _ & _ & _ & _ & _ & _ & _ & _
        & Hq & _).
  split; [by eexists|]. split; [exact Hf|exact Hq].
Defined.

(** X8 on a queue with a duplicated update. *)
Lemma removeDuplicateSyncQueueEntries_keeps_oldest_of_pair_witness :
  queue_ids_unique duplicated_queue_store ∧
  queue_dedup (removeDuplicateSyncQueueEntries duplicated_queue_store).2 ∧
  (removeDuplicateSyncQueueEntries duplicated_queue_store).1 +
    length (sync_queue (removeDuplicateSyncQueueEntries duplicated_queue_store).2)
    = 3.
Proof.
  assert (Hu : queue_ids_unique duplicated_queue_store).
  { refine (@bool_decide_unpack
              (NoDup (q_id <$> sync_queue duplicated_queue_store)) _ _).
    vm_compute. exact I. }
  pose proof (removeDuplicateSyncQueueEntries_keeps_oldest_of_pair
                duplicated_queue_store Hu) as Hw.
  cbv zeta in Hw. destruct Hw as (_ & Hd & _ & Hn & _).
  split; [exact Hu|]. split; [exact Hd|exact Hn].
Defined.

(** X10 against a remote store that answers every call with a server
    error. *)
Lemma push_create_failure_is_retried_later_witness :
  let item := first_queue_row one_expense_store in
  let s := push_item (Remote0 := failing_remote) "user-1"
             (push_start one_expense_store tt) item in
  q_operation item = Create ∧
  successCount s = 0 ∧
  q_retry_count <$> sync_queue (p_store s) = [1%Z].
Proof.
  set (item := first_queue_row one_expense_store).
  assert (Hop : q_operation item = Create) by reflexivity.
  assert (Hr : (q_retry_count item < MAX_RETRIES)%Z) by reflexivity.
  pose proof (push_create_failure_is_retried_later (Remote0 := failing_remote)
                "user-1" (push_start one_expense_store tt) item _ _ _ tt
                Hop Hr eq_refl eq_refl eq_refl eq_refl) as Hw.
  cbv zeta in Hw. destruct Hw as (Hc & _ & Hq & _).
  split; [exact Hop|]. split; [exact Hc|]. rewrite Hq. vm_compute. reflexivity.
Defined.

(** X11 against a remote store that does not hold the record. *)
Lemma push_delete_tolerates_missing_remote_row_witness :
  let item := first_queue_row deleted_offline_store in
  let s := push_item (Remote0 := empty_remote) "user-1"
             (push_start deleted_offline_store tt) item in
  q_operation item = Delete ∧
  successCount s = 1 ∧ p_errors s = [] ∧
  p_calls s = [CallDeleteExpense "e1"].
Proof.
  set (item := first_queue_row deleted_offline_store).
  assert (Hop : q_operation item = Delete) by reflexivity.
  assert (Hr : (q_retry_count item < MAX_RETRIES)%Z) by reflexivity.
  pose proof (push_delete_tolerates_missing_remote_row
                (Remote0 := empty_remote) "user-1"
                (push_start deleted_offline_store tt) item _ tt
                Hop Hr eq_refl) as Hw.
  cbv zeta in Hw. destruct Hw as (Hcalls & _ & Hok & _).
  destruct (Hok eq_refl) as (Hc & He & _).
  split; [exact Hop|]. split; [exact Hc|]. split; [exact He|exact Hcalls].
Defined.

(** X12 against a remote store that does not hold the record. *)
Lemma push_update_falls_back_to_insert_witness :
  let item := second_queue_row edited_offline_store in
  let s := push_item (Remote0 := empty_remote) "user-1"
             (push_start edited_offline_store tt) item in
  q_operation item = Update ∧
  successCount s = 1 ∧ length (p_calls s) = 2.
Proof.
  set (item := second_queue_row edited_offline_store).
  assert (Hop : q_operation item = Update) by reflexivity.
  assert (Hr : (q_retry_count item < MAX_RETRIES)%Z) by reflexivity.
  pose proof (push_update_falls_back_to_insert (Remote0 := empty_remote)
                "user-1" (push_start edited_offline_store tt) item _ _ _ tt
                None tt Hop Hr eq_refl eq_refl eq_refl eq_refl) as Hw.
  cbv zeta in Hw. destruct Hw as (Hcalls & _ & Hc & _).
  split; [exact Hop|]. split; [exact Hc|]. by rewrite Hcalls.
Defined.


(** X16 against a remote store whose listing fails. *)
Lemma pullFromRemote_failure_changes_nothing_witness :
  let out := pullFromRemote (Remote0 := failing_remote) "user-1"
               edited_offline_store tt in
  l_store out = edited_offline_store ∧
  l_errors out = ["Pull failed: Unknown error"].
Proof.
  set (err := {| e_instanceof_Error := false; e_code := Some "500";
                 e_message := Some "server error" |}).
  assert (Hget : remote_getExpenses (Remote := failing_remote) "user-1" tt =
                 ((None, Some err), tt)) by reflexivity.
  assert (Hcase : Some err ≠ None ∨ (None : option (list Expense)) = None)
    by (by right).
  pose proof (pullFromRemote_failure_changes_nothing
                (Remote0 := failing_remote) "user-1" edited_offline_store
                tt tt None (Some err) Hget Hcase) as Hw.
  cbv zeta in Hw. destruct Hw as (Hs & _ & _ & He).
  split; [exact Hs|exact He].
Defined.

(** X18 against a remote store that already holds every record. *)
Lemma syncExpenses_pushes_then_pulls_witness :
  let o := syncExpenses (Remote0 := conflicting_remote) online_net "user-1"
             one_expense_store tt in
  isOnline online_net = true ∧
  pushed (o_result o) = 1 ∧
  List.last (o_calls o) (CallDeleteExpense "") = CallGetExpenses "user-1".
Proof.
  assert (Hon : isOnline online_net = true) by reflexivity.
  pose proof (syncExpenses_pushes_then_pulls (Remote0 := conflicting_remote)
                online_net "user-1" one_expense_store tt Hon) as Hw.
  cbv zeta in Hw. destruct Hw as (Hcalls & _ & _ & Hp & _).
  split; [exact Hon|]. split; [rewrite Hp; reflexivity|].
  rewrite Hcalls. apply last_last.
Defined.

Lemma sample_draws_in_range (n : nat) : (0 ≤ sample_draws n < 16)%Z.
Proof. unfold sample_draws. apply Z.mod_pos_bound. lia. Qed.

(** X19 on a sequence of draws. *)
Lemma generateUUID_fallback_is_valid_witness :
  (∀ n, 0 ≤ sample_draws n < 16)%Z ∧
  isValidUUID (generateUUID None sample_draws) = true.
Proof.
  pose proof (generateUUID_fallback_is_valid sample_draws
                sample_draws_in_range) as Hw.
  cbv zeta in Hw. destruct Hw as (Hv & _).
  split; [exact sample_draws_in_range|exact Hv].
Defined.

(** X20 on a version-4 UUID. *)
Lemma isValidUUID_shape_witness :
  isValidUUID sample_uuid = true ∧ String.length sample_uuid = 36.
Proof.
  assert (Hv : isValidUUID sample_uuid = true) by reflexivity.
  pose proof (isValidUUID_shape sample_uuid Hv) as Hw.
  destruct Hw as (Hlen & _). split; [exact Hv|exact Hlen].
Defined.

(** X21 on the first expense of a user. *)
Lemma context_addExpense_witness :
  let out := context_addExpense (Some "user-1") "temp-1714557600000" "e1"
               lunch [] empty_store in
  "user-1" ≠ EmptyString ∧
  (∃ row, out.1 = (None, [FromStore row]) ∧
          expenses out.2 !! "e1" = Some row).
Proof.
  assert (Hu : "user-1" ≠ EmptyString) by discriminate.
  assert (Ht : "temp-1714557600000" ∉ listed_id <$> [])
    by apply not_elem_of_nil.
  pose proof (context_addExpense_shows_stored_row_or_rolls_back "user-1"
                "temp-1714557600000" "e1" lunch [] empty_store Hu Ht) as Hw.
  cbv zeta in Hw. destruct Hw as (Hok & _).
  destruct (Hok eq_refl eq_refl) as (row & Hout & Hrow & _).
  split; [exact Hu|]. exists row. split; [exact Hout|exact Hrow].
Defined.

(** X22 on the list that shows the stored expense: an edit whose amount is
    no number is rolled back, and a change of category shows the stored
    row. *)
Lemma context_updateExpense_witness :
  NoDup (listed_id <$> listed_lunch) ∧
  length listed_lunch = 1 ∧
  (context_updateExpense "e1" garbled_amount listed_lunch one_expense_store).1 =
    (Some "NOT NULL constraint failed: expenses.amount", listed_lunch) ∧
  ∃ row,
    (context_updateExpense "e1" recategorise listed_lunch one_expense_store).1 =
      (None, [FromStore row]) ∧
    category row = "Travel".
Proof.
  assert (Hnd : NoDup (listed_id <$> listed_lunch)).
  { refine (@bool_decide_unpack (NoDup (listed_id <$> listed_lunch)) _ _).
    vm_compute. exact I. }
  assert (Hheld : is_Some (expenses one_expense_store !! "e1"))
    by (vm_compute; by eexists).
  assert (Hf : provided_fields garbled_amount ≠ 0) by (vm_compute; lia).
  assert (Hf2 : provided_fields recategorise ≠ 0) by (vm_compute; lia).
  pose proof (context_updateExpense_rolls_back_or_shows_stored_row "e1"
                garbled_amount listed_lunch one_expense_store Hnd) as Hw.
  pose proof (context_updateExpense_rolls_back_or_shows_stored_row "e1"
                recategorise listed_lunch one_expense_store Hnd) as Hw2.
  cbv zeta in Hw, Hw2.
  destruct Hw as (_ & Hback & _). destruct Hw2 as (_ & _ & Hshown & _).
  destruct (Hback Hf Hheld eq_refl) as (Hout & _).
  destruct (Hshown Hf2 Hheld eq_refl) as (row & Hout2 & Hrow & _).
  split; [exact Hnd|]. split; [reflexivity|]. split; [exact Hout|].
  exists row. split; [exact Hout2|].
  assert (Hcat : category <$> expenses
            (context_updateExpense "e1" recategorise listed_lunch
               one_expense_store).2 !! "e1" = Some "Travel")
    by (vm_compute; reflexivity).
  rewrite Hrow in Hcat. by injection Hcat.
Defined.


(** X25 on a pulled record whose date is no date, edited locally: the
    update is not sent. *)
Lemma push_unparsable_date_fails_without_call_witness :
  let item := first_queue_row undated_store in
  let s := push_item (Remote0 := listing_remote) "user-1"
             (push_start undated_store []) item in
  q_operation item = Update ∧
  p_calls s = [] ∧
  p_errors s = ["update e2: Invalid time value"] ∧
  q_retry_count <$> sync_queue (p_store s) = [1%Z].
Proof.
  set (item := first_queue_row undated_store).
  assert (Hop : q_operation item ≠ Delete) by (vm_compute; discriminate).
  assert (Hr : (q_retry_count item < MAX_RETRIES)%Z) by reflexivity.
  pose proof (push_unparsable_date_fails_without_call
                (Remote0 := listing_remote) "user-1"
                (push_start undated_store []) item _ Hop Hr eq_refl eq_refl)
    as Hw.
  cbv zeta in Hw. destruct Hw as (Hcalls & _ & _ & Herr & Hq & _).
  split; [reflexivity|]. split; [exact Hcalls|]. split; [exact Herr|].
  rewrite Hq. vm_compute. reflexivity.
Defined.

End MoreExamples.
